(** * datanode/server_pkg_op.go: the request handlers of the data node

    A shallow embedding of [operatePacket] and of the handlers it
    dispatches to.  A handler is a state transformer over a [Machine]:
    the packet being processed (Go passes [*Packet], every handler
    mutates it in place), the chronological trace of the calls made to
    collaborators (stores, connection, buffer pool, logs, master), the
    allocation counter of byte buffers and the partition space.

    Collaborators that live outside this file (its stores, the
    connection, JSON, the packet's own helper methods) are gathered in
    the record [Externals]; their answers may depend on everything that
    happened before, so each one reads the trace. *)

From Stdlib Require Import ZArith List String Ascii Bool Lia.
From Stdlib.Strings Require Import Byte.
From stdpp Require Import base gmap pretty strings.
Import ListNotations.

Local Open Scope Z_scope.
Local Open Scope list_scope.

(** ** Machine integers *)

Definition uint32 (z : Z) : Z := z mod 2 ^ 32.
Definition uint64 (z : Z) : Z := z mod 2 ^ 64.
Definition int64 (z : Z) : Z := (z + 2 ^ 63) mod 2 ^ 64 - 2 ^ 63.

Definition is_uint32 (z : Z) : Prop := 0 <= z < 2 ^ 32.
Definition is_int64 (z : Z) : Prop := - 2 ^ 63 <= z < 2 ^ 63.

(** [util.Min] on Go [int]. *)
Definition Min (a b : Z) : Z := if a <=? b then a else b.

(** [%v] of an unsigned integer, and [strconv.Itoa]. *)
Definition fmtU (z : Z) : string := pretty (Z.to_N z).
Definition Itoa (z : Z) : string := pretty z.

(** [binary.BigEndian.Uint64]: b[7] | b[6]<<8 | ... | b[0]<<56. *)
Definition byteAt (b : list byte) (i : nat) : Z :=
  Z.of_N (Byte.to_N (nth i b x00)).

Definition BigEndian_Uint64 (b : list byte) : Z :=
  Z.lor (byteAt b 7)
 (Z.lor (Z.shiftl (byteAt b 6) 8)
 (Z.lor (Z.shiftl (byteAt b 5) 16)
 (Z.lor (Z.shiftl (byteAt b 4) 24)
 (Z.lor (Z.shiftl (byteAt b 3) 32)
 (Z.lor (Z.shiftl (byteAt b 2) 40)
 (Z.lor (Z.shiftl (byteAt b 1) 48)
        (Z.shiftl (byteAt b 0) 56))))))).

(** ** Errors *)

(** Go [error] values met in this file.  [Annotate] is juju's
    [errors.Annotatef], [Errorf] is [fmt.Errorf]; [Foreign] is an error
    handed back by a collaborator. *)
Inductive error : Type :=
| ErrorUnknownOp
| ErrorPartitionReadOnly
| ErrSyscallNoSpace
| ErrStoreTypeMismatch
| Foreign (msg : string)
| Errorf (msg : string)
| Annotate (msg : string) (cause : error).

(** ** Protocol enumerations *)

Inductive Opcode : Type :=
| OpCreateFile | OpWrite | OpRead | OpBlobFileRepairRead | OpStreamRead
| OpMarkDelete | OpNotifyCompactBlobFile | OpNotifyExtentRepair
| OpNotifyBlobRepair | OpGetWatermark | OpExtentStoreGetAllWaterMark
| OpBlobStoreGetAllWaterMark | OpCreateDataPartition | OpLoadDataPartition
| OpDeleteDataPartition | OpDataNodeHeartbeat | OpGetDataPartitionMetrics
| OpOther (code : Z).

Inductive StoreMode : Type :=
| BlobStoreMode | ExtentStoreMode | OtherStoreMode (v : Z).

Inductive PartitionStatus : Type :=
| ReadOnly | ReadWrite | OtherStatus (v : Z).

Inductive ResultCode : Type :=
| OpOk | OpNotOk (code : Z).

Inductive TaskStatus : Type :=
| TaskSuccess | TaskFail | TaskOther (v : Z).

Inductive DiskFlag : Type := WriteFlag | ReadFlag.

(** The action names given to [PackErrorBody] and [ActionMsg]. *)
Inductive Action : Type :=
| LogCreateFile | LogMarkDel | LogWrite | LogRead | LogGetWm | LogGetAllWm
| LogCompactBlobFile | LogRepair | ActionStreamRead | ActionWriteToCli
| ActionFollowerRequireBlobFileRepairCmd | ActionGetDataPartitionMetrics.

Inductive LogLevel : Type :=
| LvError | LvWarn | LvInfo | LvDebug | LvRead | LvWrite.

(** ** Data *)

(** A byte slice together with the identity of its backing array: the
    ticket handed out when it was allocated or checked out of the pool. *)
Record Buffer : Type := mkBuffer { bufId : nat; bufBytes : list byte }.

Definition len (b : Buffer) : Z := Z.of_nat (List.length (bufBytes b)).

Record Partition : Type := mkPartition {
  partID : Z;
  Status : PartitionStatus;
  Available : Z;
  diskPath : string;
  partPath : string
}.

Record Packet : Type := mkPacket {
  Opcode_ : Opcode;
  StoreMode_ : StoreMode;
  PartitionID : Z;
  FileID : Z;
  Offset : Z;
  Size : Z;
  Data : Buffer;
  Crc : Z;
  ResultCode_ : ResultCode;
  StartT : Z;
  ReqID : Z
}.

Definition withSize (v : Z) (p : Packet) : Packet :=
  mkPacket (Opcode_ p) (StoreMode_ p) (PartitionID p) (FileID p) (Offset p) v
           (Data p) (Crc p) (ResultCode_ p) (StartT p) (ReqID p).
Definition withData (v : Buffer) (p : Packet) : Packet :=
  mkPacket (Opcode_ p) (StoreMode_ p) (PartitionID p) (FileID p) (Offset p) (Size p)
           v (Crc p) (ResultCode_ p) (StartT p) (ReqID p).
Definition withCrc (v : Z) (p : Packet) : Packet :=
  mkPacket (Opcode_ p) (StoreMode_ p) (PartitionID p) (FileID p) (Offset p) (Size p)
           (Data p) v (ResultCode_ p) (StartT p) (ReqID p).
Definition withResultCode (v : ResultCode) (p : Packet) : Packet :=
  mkPacket (Opcode_ p) (StoreMode_ p) (PartitionID p) (FileID p) (Offset p) (Size p)
           (Data p) (Crc p) v (StartT p) (ReqID p).
(** [RepairBlobFileTask]. *)
Record RepairBlobFileTask : Type := mkRepairTask {
  BlobFileId : Z;
  StartObj : Z;
  EndObj : Z
}.

(** [CompactTask]. *)
Record CompactTask : Type := mkCompactTask {
  partitionId : Z;
  blobfileId : Z;
  isLeader : bool
}.

(** Responses reported to the master.  The four Go structs share the
    fields below; [respBody] stands for what [Load] and
    [fillHeartBeatResponse] put into theirs. *)
Record TaskResponse : Type := mkResponse {
  respPartitionId : Z;
  respStatus : TaskStatus;
  respResult : string;
  respBody : string
}.

Definition emptyResponse : TaskResponse := mkResponse 0 (TaskOther 0) EmptyString EmptyString.

(** [proto.AdminTask]: the request stays in its serialized form. *)
Record AdminTask : Type := mkAdminTask {
  taskOpCode : Opcode;
  taskRequest : list byte;
  taskResponse : option TaskResponse
}.

Record CreateDataPartitionRequest : Type := mkCreateReq {
  crVolumeId : string;
  crPartitionId : Z;
  crPartitionSize : Z;
  crPartitionType : string
}.

(** ** The trace of calls to collaborators *)

Inductive Event : Type :=
| EvExtentCreate (fileID ino : Z) (overwrite : bool)
| EvExtentWrite (fileID off size : Z) (data : Buffer) (crc : Z) (res : option error)
| EvBlobWrite (fileID off size : Z) (data : Buffer) (crc : Z) (res : option error)
| EvExtentRead (fileID off size : Z) (buf : nat) (res : option error)
| EvBlobRead (fileID off size : Z) (buf : nat) (res : option error)
| EvExtentMarkDelete (fileID : Z)
| EvBlobMarkDelete (fileID off size : Z)
| EvGetWatermark (mode : StoreMode) (fileID : Z)
| EvGetAllWatermark (mode : StoreMode)
| EvGetLastOid (blobfileID : Z)
| EvSyncData (blobfileID startOid endOid : Z)
| EvAddDiskErrs (partitionID : Z) (err : option error) (flag : DiskFlag)
| EvBuffersGet (id : nat) (size : Z)
| EvBuffersPut (id : nat)
| EvWriteToConn (p : Packet) (res : option error)
| EvConnClose
| EvLog (lv : LogLevel) (text : string)
| EvUmpBefore (key : string)
| EvUmpAfter (key : string) (err : option error)
| EvMasterRequest (task : AdminTask) (res : option error)
| EvMasterAddNode (addr : string)
| EvMergeExtentStoreRepair (mf : list byte)
| EvMergeBlobStoreRepair (mf : list byte)
| EvPutCompactTask (task : CompactTask) (res : option error).

Definition Trace : Type := list Event.

(** A disk, as far as compaction admission sees it. *)
Record Disk : Type := mkDisk { compactTasks : list string }.

(** [dataPartition] is the partition [pkg.DataPartition] points to. *)
Record Machine : Type := mkMachine {
  pkg : Packet;
  dataPartition : Partition;
  trace : Trace;
  nextBuf : nat;
  partitions : gmap Z Partition;
  disks : gmap string Disk
}.

(** ** Collaborators *)

Record Externals : Type := mkExternals {
  (* constants of package util and of the node *)
  readBlockSize : positive;
  blockSize : positive;
  clusterId : string;
  remoteAddr : string;
  (* texts *)
  sentinelText : error -> string;
  actionName : Action -> string;
  GetOpMsg : Packet -> string;
  GetUniqueLogId : Packet -> string;
  ActionMsg : Packet -> string -> string -> Z -> option error -> string;
  repairTaskToString : RepairBlobFileTask -> string;
  adminTaskToString : AdminTask -> string;
  compactTaskToString : CompactTask -> string;
  ErrorStack : error -> string;
  unixNano : Trace -> Z;
  (* the packet's reply body for an error, and its result code *)
  errorBody : string -> string -> list byte;
  errorCode : string -> string -> Z;
  (* extent and blob stores *)
  extentCreate : Trace -> Z -> Z -> bool -> option error;
  extentWrite : Trace -> Z -> Z -> Z -> Buffer -> Z -> option error;
  blobWrite : Trace -> Z -> Z -> Z -> Buffer -> Z -> option error;
  extentRead : Trace -> Z -> Z -> Z -> Z * list byte * option error;
  blobRead : Trace -> Z -> Z -> Z -> Z * list byte * option error;
  extentMarkDelete : Trace -> Z -> option error;
  blobMarkDelete : Trace -> Z -> Z -> Z -> option error;
  getWatermark : Trace -> StoreMode -> Z -> list byte * option error;
  getAllWatermark : Trace -> StoreMode -> list byte * option error;
  getLastOid : Trace -> Z -> Z * option error;
  syncData : Trace -> Z -> Z -> Z -> Packet -> Packet * list Event * option error;
  poolBytes : Trace -> list byte;
  (* connection and master *)
  writeToConn : Trace -> Packet -> option error;
  masterRequest : Trace -> AdminTask -> option error;
  (* partition space *)
  createPartition : Trace -> CreateDataPartitionRequest -> Partition + error;
  loadPartition : Trace -> Partition -> TaskResponse;
  heartBeatBody : Trace -> string;
  runtimeMetrics : Trace -> Partition -> list byte + error;
  putCompactTask : Trace -> CompactTask -> option error;
  (* JSON *)
  unmarshalAdminTask : list byte -> AdminTask;
  unmarshalCreateRequest : list byte -> CreateDataPartitionRequest;
  unmarshalDeleteRequest : list byte -> Z * option error;
  unmarshalLoadRequest : list byte -> Z;
  unmarshalHeartBeatRequest : list byte -> string;
  marshalAdminTask : AdminTask -> list byte + error;
  unmarshalMemberFileMetas : list byte -> option error;
  unmarshalRepairTask : list byte -> RepairBlobFileTask + error
}.

Definition ReadBlockSize (E : Externals) : Z := Z.pos (readBlockSize E).
Definition BlockSize (E : Externals) : Z := Z.pos (blockSize E).

(** [err.Error()].  juju prints an annotated error as the annotation,
    a colon and the error it wraps; [errors.ErrorStack] is left to the
    collaborators. *)
Fixpoint ErrorText (E : Externals) (e : error) : string :=
  match e with
  | ErrorUnknownOp => "unknown opcode"
  | Foreign msg => msg
  | Errorf msg => msg
  | Annotate msg cause => msg +:+ ": " +:+ ErrorText E cause
  | _ => sentinelText E e
  end.

(** ** The handler monad *)

Definition M (A : Type) : Type := Machine -> A * Machine.

Definition ret {A} (a : A) : M A := fun m => (a, m).
Definition bind {A B} (c : M A) (k : A -> M B) : M B :=
  fun m => let r := c m in k (fst r) (snd r).

Declare Scope go_scope.
Delimit Scope go_scope with go.
Notation "x <- c ;; k" := (bind c (fun x => k))
  (at level 100, c at next level, right associativity) : go_scope.
Notation "c ;;; k" := (bind c (fun _ => k))
  (at level 100, right associativity) : go_scope.
Local Open Scope go_scope.

Definition getPkg : M Packet := fun m => (pkg m, m).
Definition getTrace : M Trace := fun m => (trace m, m).
Definition getDataPartition : M Partition := fun m => (dataPartition m, m).
Definition modPkg (f : Packet -> Packet) : M unit :=
  fun m => (tt, mkMachine (f (pkg m)) (dataPartition m) (trace m) (nextBuf m) (partitions m) (disks m)).
Definition emit (e : Event) : M unit :=
  fun m => (tt, mkMachine (pkg m) (dataPartition m) (trace m ++ [e]) (nextBuf m) (partitions m) (disks m)).
Definition emitAll (es : list Event) : M unit :=
  fun m => (tt, mkMachine (pkg m) (dataPartition m) (trace m ++ es) (nextBuf m) (partitions m) (disks m)).
(** [make([]byte, n)]: a fresh backing array. *)
Definition make (bytes : list byte) : M Buffer :=
  fun m => (mkBuffer (nextBuf m) bytes,
            mkMachine (pkg m) (dataPartition m) (trace m) (S (nextBuf m)) (partitions m) (disks m)).
Definition modPartitions (f : gmap Z Partition -> gmap Z Partition) : M unit :=
  fun m => (tt, mkMachine (pkg m) (dataPartition m) (trace m) (nextBuf m) (f (partitions m)) (disks m)).
Definition modDisks (f : gmap string Disk -> gmap string Disk) : M unit :=
  fun m => (tt, mkMachine (pkg m) (dataPartition m) (trace m) (nextBuf m) (partitions m) (f (disks m))).

Definition exec {A} (c : M A) (m : Machine) : Machine := snd (c m).

Definition zeros (n : Z) : list byte := repeat x00 (Z.to_nat n).

(** Calling a collaborator: its answer is computed from the trace so
    far, then the call is recorded. *)
Definition call {A} (f : Trace -> A) (ev : A -> Event) : M A :=
  t <- getTrace;;
  let r := f t in
  emit (ev r);;;
  ret r.

(** ** Packet helpers *)

(** Modelled from the spec: [Packet.PackErrorBody], [PackOkReply],
    [PackOkReadReply], [PackOkWithBody] and [IsErrPack] are methods of
    the packet declared outside server_pkg_op.go.  An error reply
    carries the message as its payload and [Size] is the byte length of
    whatever payload occupies the unit; a plain Ok reply has no payload;
    a read reply keeps the payload the handler has filled in. *)
Definition PackErrorBody (E : Externals) (action msg : string) : M unit :=
  buf <- make (errorBody E action msg);;
  modPkg (fun p => withData buf
                     (withSize (uint32 (len buf))
                        (withResultCode (OpNotOk (errorCode E action msg)) p))).

Definition PackOkReply : M unit :=
  modPkg (fun p => withSize 0 (withResultCode OpOk p)).

Definition PackOkReadReply : M unit :=
  modPkg (withResultCode OpOk).

Definition PackOkWithBody (body : list byte) : M unit :=
  buf <- make body;;
  modPkg (fun p => withData buf (withSize (uint32 (len buf)) (withResultCode OpOk p))).

Definition IsErrPack (p : Packet) : bool :=
  match ResultCode_ p with OpOk => false | OpNotOk _ => true end.

Definition WriteToConn (E : Externals) : M (option error) :=
  p <- getPkg;;
  call (fun t => writeToConn E t p) (EvWriteToConn p).

Definition addDiskErrs (partitionID : Z) (err : option error) (flag : DiskFlag) : M unit :=
  emit (EvAddDiskErrs partitionID err flag).

Definition requestTag (E : Externals) (p : Packet) (what : string) : string :=
  "Request(" +:+ GetUniqueLogId E p +:+ ") " +:+ what.

(** The deferred reply of the handlers that collect an [err]. *)
Definition replyWith (E : Externals) (a : Action) (what : string) (err : option error) : M unit :=
  match err with
  | Some e =>
      p <- getPkg;;
      PackErrorBody E (actionName E a) (ErrorText E (Annotate (requestTag E p what) e))
  | None => PackOkReply
  end.

(** ** handleCreateFile *)

Definition inodeHint (p : Packet) : Z :=
  if (8 <=? len (Data p)) && (8 <=? Size p)
  then BigEndian_Uint64 (bufBytes (Data p)) else 0.

Definition createFileBody (E : Externals) : M (option error) :=
  p <- getPkg;;
  dp <- getDataPartition;;
  match Status dp with
  | ReadOnly => ret (Some ErrorPartitionReadOnly)
  | _ =>
    if Available dp <=? 0 then ret (Some ErrSyscallNoSpace)
    else match StoreMode_ p with
         | BlobStoreMode =>
             ret (Some (Annotate " CreateFile only support ExtentMode DataPartition"
                                 ErrStoreTypeMismatch))
         | ExtentStoreMode =>
             let ino := inodeHint p in
             call (fun t => extentCreate E t (FileID p) ino false)
                  (fun _ => EvExtentCreate (FileID p) ino false)
         | OtherStoreMode _ => ret None
         end
  end.

Definition handleCreateFile (E : Externals) : M unit :=
  err <- createFileBody E;;
  replyWith E LogCreateFile "CreateFile Error" err.

(** ** handleMarkDelete *)

Definition handleMarkDelete (E : Externals) : M unit :=
  p <- getPkg;;
  err <- match StoreMode_ p with
         | BlobStoreMode =>
             call (fun t => blobMarkDelete E t (uint32 (FileID p)) (Offset p) (int64 (Size p)))
                  (fun _ => EvBlobMarkDelete (uint32 (FileID p)) (Offset p) (int64 (Size p)))
         | ExtentStoreMode =>
             call (fun t => extentMarkDelete E t (FileID p))
                  (fun _ => EvExtentMarkDelete (FileID p))
         | OtherStoreMode _ => ret None
         end;;
  replyWith E LogMarkDel "MarkDelete Error" err.

(** ** handleWrite *)

Definition isOpWrite (o : Opcode) : bool :=
  match o with OpWrite => true | _ => false end.

Definition writeBody (E : Externals) : M (option error) :=
  p <- getPkg;;
  dp <- getDataPartition;;
  match Status dp with
  | ReadOnly => ret (Some ErrorPartitionReadOnly)
  | _ =>
    if Available dp <=? 0 then ret (Some ErrSyscallNoSpace)
    else match StoreMode_ p with
         | BlobStoreMode =>
             err <- call (fun t => blobWrite E t (uint32 (FileID p)) (uint64 (Offset p))
                                     (int64 (Size p)) (Data p) (Crc p))
                         (EvBlobWrite (uint32 (FileID p)) (uint64 (Offset p))
                                     (int64 (Size p)) (Data p) (Crc p));;
             addDiskErrs (PartitionID p) err WriteFlag;;;
             ret err
         | ExtentStoreMode =>
             err <- call (fun t => extentWrite E t (FileID p) (Offset p)
                                     (int64 (Size p)) (Data p) (Crc p))
                         (EvExtentWrite (FileID p) (Offset p)
                                     (int64 (Size p)) (Data p) (Crc p));;
             addDiskErrs (PartitionID p) err WriteFlag;;;
             (match err with
              | None =>
                  if isOpWrite (Opcode_ p) && (Size p =? BlockSize E)
                  then emit (EvBuffersPut (bufId (Data p)))
                  else ret tt
              | Some _ => ret tt
              end);;;
             ret err
         | OtherStoreMode _ => ret None
         end
  end.

Definition handleWrite (E : Externals) : M unit :=
  err <- writeBody E;;
  replyWith E LogWrite "Write Error" err.

(** ** handleRead *)

Definition fillData (r : Z * list byte * option error) : M unit :=
  modPkg (fun p => withCrc (fst (fst r))
                     (withData (mkBuffer (bufId (Data p)) (snd (fst r))) p)).

Definition handleRead (E : Externals) : M unit :=
  p0 <- getPkg;;
  buf <- make (zeros (Size p0));;
  modPkg (withData buf);;;
  p <- getPkg;;
  err <- match StoreMode_ p with
         | BlobStoreMode =>
             r <- call (fun t => blobRead E t (uint32 (FileID p)) (Offset p) (int64 (Size p)))
                       (fun r => EvBlobRead (uint32 (FileID p)) (Offset p) (int64 (Size p))
                                   (bufId (Data p)) (snd r));;
             fillData r;;;
             addDiskErrs (PartitionID p) (snd r) ReadFlag;;;
             ret (snd r)
         | ExtentStoreMode =>
             r <- call (fun t => extentRead E t (FileID p) (Offset p) (int64 (Size p)))
                       (fun r => EvExtentRead (FileID p) (Offset p) (int64 (Size p))
                                   (bufId (Data p)) (snd r));;
             fillData r;;;
             addDiskErrs (PartitionID p) (snd r) ReadFlag;;;
             ret (snd r)
         | OtherStoreMode _ => ret None
         end;;
  match err with
  | None => PackOkReadReply
  | Some e => PackErrorBody E (actionName E LogRead) (ErrorText E e)
  end.

(** ** handleStreamRead *)

(** How the [for] loop was left; [LoopOutOfFuel] is the model's own
    bound and is shown below never to happen. *)
Inductive LoopExit : Type :=
| LoopDone | LoopReadFailed | LoopWriteFailed | LoopOutOfFuel.

Record LoopResult : Type := mkLoopResult {
  loopExit : LoopExit;
  finalNeedReplySize : Z;
  finalOffset : Z
}.

Definition streamUmpKey (E : Externals) : string :=
  clusterId E +:+ "_datanode_" +:+ "Read".

Definition logWriteToCli (E : Externals) (e : error) : M unit :=
  p <- getPkg;;
  emit (EvLog LvError
          (ActionMsg E p (actionName E ActionWriteToCli) (remoteAddr E) (StartT p) (Some e))).

(** [proto.Buffers.Get(util.ReadBlockSize)]: a checkout of the shared
    pool; the ticket identifies this checkout. *)
Definition BuffersGet (E : Externals) : M Buffer :=
  t <- getTrace;;
  buf <- make (poolBytes E t);;
  emit (EvBuffersGet (bufId buf) (ReadBlockSize E));;;
  ret buf.

Definition BuffersPut (b : Buffer) : M unit := emit (EvBuffersPut (bufId b)).

(** One round of the [for] loop, entered with [needReplySize > 0]: it
    either leaves the handler or hands the updated locals
    [(needReplySize, offset)] to the next round.  [int] has 64 bits, so
    [int(needReplySize)] is the value of the [uint32] itself. *)
Definition streamRound (E : Externals) (needReplySize offset : Z)
  : M (LoopExit + Z * Z) :=
  let currReadSize := uint32 (Min needReplySize (ReadBlockSize E)) in
  buf <- (if currReadSize =? ReadBlockSize E then BuffersGet E
          else make (zeros currReadSize));;
  modPkg (withData buf);;;
  emit (EvUmpBefore (streamUmpKey E));;;
  p <- getPkg;;
  r <- call (fun t => extentRead E t (FileID p) offset (int64 currReadSize))
            (fun r => EvExtentRead (FileID p) offset (int64 currReadSize)
                        (bufId (Data p)) (snd r));;
  fillData r;;;
  emit (EvUmpAfter (streamUmpKey E) (snd r));;;
  match snd r with
  | Some e =>
      PackErrorBody E (actionName E ActionStreamRead) (ErrorText E e);;;
      w <- WriteToConn E;;
      (match w with Some e' => logWriteToCli E e' | None => ret tt end);;;
      ret (inl LoopReadFailed)
  | None =>
      modPkg (fun p => withResultCode OpOk (withSize currReadSize p));;;
      w <- WriteToConn E;;
      match w with
      | Some e' =>
          logWriteToCli E e';;;
          emit EvConnClose;;;
          ret (inl LoopWriteFailed)
      | None =>
          let needReplySize' := uint32 (needReplySize - currReadSize) in
          let offset' := int64 (offset + int64 currReadSize) in
          (if currReadSize =? ReadBlockSize E
           then p <- getPkg;; BuffersPut (Data p)
           else ret tt);;;
          ret (inr (needReplySize', offset'))
      end
  end.

Fixpoint streamLoop (E : Externals) (fuel : nat) (needReplySize offset : Z)
  : M LoopResult :=
  match fuel with
  | O => ret (mkLoopResult LoopOutOfFuel needReplySize offset)
  | S fuel' =>
    if needReplySize <=? 0 then ret (mkLoopResult LoopDone needReplySize offset)
    else
      r <- streamRound E needReplySize offset;;
      match r with
      | inl exit => ret (mkLoopResult exit needReplySize offset)
      | inr (needReplySize', offset') => streamLoop E fuel' needReplySize' offset'
      end
  end.

(** The loop runs on the request's [Size] and [Offset]; every round
    takes at least one byte off [needReplySize]. *)
Definition streamRead (E : Externals) : M LoopResult :=
  request <- getPkg;;
  streamLoop E (S (Z.to_nat (Size request))) (Size request) (Offset request).

Definition handleStreamRead (E : Externals) : M unit :=
  streamRead E;;; ret tt.

(** ** Watermarks and metrics *)

Definition nullJson : list byte := list_byte_of_string "null".

Definition handleGetWatermark (E : Externals) : M unit :=
  p <- getPkg;;
  r <- match StoreMode_ p with
       | BlobStoreMode =>
           call (fun t => getWatermark E t BlobStoreMode (FileID p))
                (fun _ => EvGetWatermark BlobStoreMode (FileID p))
       | ExtentStoreMode =>
           call (fun t => getWatermark E t ExtentStoreMode (FileID p))
                (fun _ => EvGetWatermark ExtentStoreMode (FileID p))
       | OtherStoreMode _ => ret (nullJson, None)
       end;;
  match snd r with
  | Some e =>
      PackErrorBody E (actionName E LogGetWm)
        (ErrorText E (Annotate (requestTag E p "handleGetWatermark Error") e))
  | None => PackOkWithBody (fst r)
  end.

Definition handleAllWatermark (E : Externals) (mode : StoreMode) (what : string) : M unit :=
  p <- getPkg;;
  r <- call (fun t => getAllWatermark E t mode) (fun _ => EvGetAllWatermark mode);;
  match snd r with
  | Some e =>
      PackErrorBody E (actionName E LogGetAllWm)
        (ErrorText E (Annotate (requestTag E p what) e))
  | None => PackOkWithBody (fst r)
  end.

Definition handleExtentStoreGetAllWatermark (E : Externals) : M unit :=
  handleAllWatermark E ExtentStoreMode "handleExtentStoreGetAllWatermark Error".

Definition handleBlobStoreGetAllWatermark (E : Externals) : M unit :=
  handleAllWatermark E BlobStoreMode "OpBlobStoreGetAllWatermark Error".

Definition handleGetDataPartitionMetrics (E : Externals) : M unit :=
  dp <- getDataPartition;;
  t <- getTrace;;
  match runtimeMetrics E t dp with
  | inr e =>
      PackErrorBody E (actionName E ActionGetDataPartitionMetrics)
        (ErrorText E (Annotate ("dataPartionMetrics(" +:+ fmtU (partID dp)
                                +:+ ") json mashal failed") e))
  | inl data => PackOkWithBody data
  end.

(** ** Repair *)

Definition handleNotifyExtentRepair (E : Externals) : M unit :=
  p <- getPkg;;
  match unmarshalMemberFileMetas E (bufBytes (Data p)) with
  | Some e => PackErrorBody E (actionName E LogRepair) (ErrorText E e)
  | None => emit (EvMergeExtentStoreRepair (bufBytes (Data p)));;; PackOkReply
  end.

Definition handleNotifyBlobRepair (E : Externals) : M unit :=
  p <- getPkg;;
  match unmarshalMemberFileMetas E (bufBytes (Data p)) with
  | Some e => PackErrorBody E (actionName E LogRepair) (ErrorText E e)
  | None => emit (EvMergeBlobStoreRepair (bufBytes (Data p)));;; PackOkReply
  end.

(** The text of the error raised when the local store is behind. *)
Definition repairBehindText (E : Externals) (task : RepairBlobFileTask) (localOid : Z) : string :=
  " handleBlobFileRepairRead Recive RepairTask(" +:+ repairTaskToString E task
    +:+ ") but localOid(" +:+ fmtU localOid +:+ ")".

Definition handleBlobFileRepairRead (E : Externals) : M unit :=
  p <- getPkg;;
  match unmarshalRepairTask E (bufBytes (Data p)) with
  | inr e =>
      PackErrorBody E (actionName E ActionFollowerRequireBlobFileRepairCmd)
        (ErrorText E (Annotate (requestTag E p "handleBlobFileRepairRead unmash task error ") e))
  | inl task =>
      let blobfileID := uint32 (BlobFileId task) in
      r <- call (fun t => getLastOid E t blobfileID) (fun _ => EvGetLastOid blobfileID);;
      let localOid := fst r in
      emit (EvLog LvWarn
              (requestTag E p "handleBlobFileRepairRead Recive RepairTask("
                 +:+ repairTaskToString E task +:+ ") localOid(" +:+ fmtU localOid +:+ ")"));;;
      if localOid <? EndObj task then
        PackErrorBody E (actionName E ActionFollowerRequireBlobFileRepairCmd)
          (ErrorText E (Annotate (requestTag E p "handleBlobFileRepairRead Error")
                                 (Errorf (repairBehindText E task localOid))))
      else
        t <- getTrace;;
        let synced := syncData E t blobfileID (StartObj task) localOid p in
        emit (EvSyncData blobfileID (StartObj task) localOid);;;
        modPkg (fun _ => fst (fst synced));;;
        emitAll (snd (fst synced));;;
        match snd synced with
        | Some e =>
            p'' <- getPkg;;
            PackErrorBody E (actionName E ActionFollowerRequireBlobFileRepairCmd)
              (ErrorText E (Annotate ("Request(" +:+ repairTaskToString E task
                                        +:+ ") handleBlobFileRepairRead Recive RepairTask("
                                        +:+ GetUniqueLogId E p'' +:+ ") SyncData  Error") e))
        | None => ret tt
        end
  end.

(** ** handleNotifyCompact *)

(** Modelled from the spec: the partition space and the disks are kept
    outside server_pkg_op.go.  [GetPartition] and [GetDisk] are lookups,
    a disk holds the keys of its accepted compaction tasks, and
    [putCompactTask] may refuse the task. *)
Definition hasExsitCompactTask (d : Disk) (key : string) : bool :=
  bool_decide (key ∈ compactTasks d).

Definition handleNotifyCompact (E : Externals) : M unit :=
  p <- getPkg;;
  let task := mkCompactTask (PartitionID p) (int64 (FileID p)) false in
  fun m =>
  match partitions m !! partitionId task with
  | None =>
      PackErrorBody E (actionName E LogCompactBlobFile)
        (ErrorText E (Annotate (requestTag E p "handleNotifyCompact Error")
           (Errorf ("partition not found%!(EXTRA string="
                      +:+ compactTaskToString E task +:+ ")")))) m
  | Some dp =>
      match disks m !! diskPath dp with
      | None =>
          PackErrorBody E (actionName E LogCompactBlobFile)
            (ErrorText E (Annotate (requestTag E p "handleNotifyCompact Error")
               (Errorf ("disk not found%!(EXTRA string=" +:+ partPath dp +:+ ")")))) m
      | Some d =>
          if hasExsitCompactTask d (compactTaskToString E task) then PackOkReply m
          else
            (r <- call (fun t => putCompactTask E t task) (EvPutCompactTask task);;
             match r with
             | Some e =>
                 PackErrorBody E (actionName E LogCompactBlobFile)
                   (ErrorText E (Annotate (requestTag E p "handleNotifyCompact Error") e))
             | None =>
                 modDisks (insert (diskPath dp)
                             (mkDisk (compactTaskToString E task :: compactTasks d)));;;
                 PackOkReply
             end) m
      end
  end.

(** ** Tasks of the master *)

Definition reportToMaster (E : Externals) (task : AdminTask) : M (option error) :=
  call (fun t => masterRequest E t task) (EvMasterRequest task).

Definition respond (task : AdminTask) (r : TaskResponse) : AdminTask :=
  mkAdminTask (taskOpCode task) (taskRequest task) (Some r).

Definition handleCreateDataPartition (E : Externals) : M unit :=
  p <- getPkg;;
  let task := unmarshalAdminTask E (bufBytes (Data p)) in
  PackOkReply;;;
  response <-
    match taskOpCode task with
    | OpCreateDataPartition =>
        let request := unmarshalCreateRequest E (taskRequest task) in
        t <- getTrace;;
        match createPartition E t request with
        | inr e =>
            emit (EvLog LvError ("from master Task(" +:+ adminTaskToString E task
                                   +:+ ") failed,error(" +:+ ErrorText E e +:+ ")"));;;
            ret (mkResponse (uint64 (crPartitionId request)) TaskFail (ErrorText E e) EmptyString)
        | inl dp =>
            modPartitions (insert (uint32 (crPartitionId request)) dp);;;
            ret (mkResponse (crPartitionId request) TaskSuccess EmptyString EmptyString)
        end
    | _ =>
        emit (EvLog LvError ("from master Task(" +:+ adminTaskToString E task
                               +:+ ") failed,error(illegal opcode )"));;;
        ret (mkResponse 0 TaskFail "illegal opcode " EmptyString)
    end;;
  r <- reportToMaster E (respond task response);;
  match r with
  | Some e =>
      emit (EvLog LvError
              (ErrorStack E (Annotate ("create dataPartition failed,partitionId("
                                         +:+ fmtU (respPartitionId response) +:+ ")") e)))
  | None => ret tt
  end.

Definition handleHeartbeats (E : Externals) : M unit :=
  p <- getPkg;;
  let task := unmarshalAdminTask E (bufBytes (Data p)) in
  PackOkReply;;;
  t <- getTrace;;
  let body := heartBeatBody E t in
  reqResp <-
    match taskOpCode task with
    | OpDataNodeHeartbeat =>
        let masterAddr := unmarshalHeartBeatRequest E (taskRequest task) in
        emit (EvMasterAddNode masterAddr);;;
        ret (masterAddr, mkResponse 0 TaskSuccess EmptyString body)
    | _ => ret (EmptyString, mkResponse 0 TaskFail "illegal opcode" body)
    end;;
  let task' := respond task (snd reqResp) in
  match marshalAdminTask E task' with
  | inr e => emit (EvLog LvError ("action[heartbeat] err(" +:+ ErrorText E e +:+ ")."))
  | inl data =>
      r <- reportToMaster E task';;
      match r with
      | Some e =>
          let e' := Annotate ("heartbeat to master(" +:+ fst reqResp +:+ ") failed.") e in
          emit (EvLog LvError ("action[handleHeartbeats] err(" +:+ ErrorText E e' +:+ ")."));;;
          emit (EvLog LvError (ErrorStack E e'))
      | None =>
          emit (EvLog LvDebug ("action[handleHeartbeats] report data len("
                                 +:+ fmtU (Z.of_nat (List.length data))
                                 +:+ ") to master success."))
      end
  end.

(** Modelled from the spec: [space.DeletePartition] is declared outside
    server_pkg_op.go; it removes the partition with that id from the
    node's partition space and returns nothing. *)
Definition DeletePartition (id : Z) : M unit := modPartitions (delete id).

Definition handleDeleteDataPartition (E : Externals) : M unit :=
  p <- getPkg;;
  let task := unmarshalAdminTask E (bufBytes (Data p)) in
  PackOkReply;;;
  reqResp <-
    match taskOpCode task with
    | OpDeleteDataPartition =>
        let requestId := fst (unmarshalDeleteRequest E (taskRequest task)) in
        match snd (unmarshalDeleteRequest E (taskRequest task)) with
        | Some e =>
            emit (EvLog LvError
                    ("action[handleDeleteDataPartition] from master Task("
                       +:+ adminTaskToString E task +:+ ") failed, err("
                       +:+ ErrorText E e +:+ ")"));;;
            ret (requestId, mkResponse (uint64 requestId) TaskFail (ErrorText E e) EmptyString)
        | None =>
            DeletePartition (uint32 requestId);;;
            ret (requestId, mkResponse (uint64 requestId) TaskSuccess EmptyString EmptyString)
        end
    | _ =>
        emit (EvLog LvError
                ("action[handleDeleteDataPartition] from master Task("
                   +:+ adminTaskToString E task +:+ ") failed, err(illegal opcode )."));;;
        ret (0, mkResponse 0 TaskFail "illegal opcode " EmptyString)
    end;;
  r <- reportToMaster E (respond task (snd reqResp));;
  match r with
  | Some e =>
      emit (EvLog LvError
              ("action[handleDeleteDataPartition] err("
                 +:+ ErrorText E (Annotate ("delete dataPartition failed,partitionId("
                                              +:+ fmtU (fst reqResp) +:+ ")") e)
                 +:+ ")."))
  | None => ret tt
  end.

Definition handleLoadDataPartition (E : Externals) : M unit :=
  p <- getPkg;;
  let task := unmarshalAdminTask E (bufBytes (Data p)) in
  PackOkReply;;;
  reqResp <-
    match taskOpCode task with
    | OpLoadDataPartition =>
        let requestId := unmarshalLoadRequest E (taskRequest task) in
        fun m =>
        match partitions m !! uint32 requestId with
        | None =>
            let result := ("dataPartition(" +:+ fmtU requestId +:+ ") not found")%string in
            (emit (EvLog LvError ("from master Task(" +:+ adminTaskToString E task
                                    +:+ ") failed,error(" +:+ result +:+ ")"));;;
             ret (requestId, mkResponse (uint64 requestId) TaskFail result EmptyString)) m
        | Some dp =>
            (t <- getTrace;;
             let loaded := loadPartition E t dp in
             ret (requestId, mkResponse (uint64 requestId) (respStatus loaded)
                               (respResult loaded) (respBody loaded))) m
        end
    | _ =>
        emit (EvLog LvError ("from master Task(" +:+ adminTaskToString E task
                               +:+ ") failed,error(illegal opcode )"));;;
        ret (0, mkResponse 0 TaskFail "illegal opcode " EmptyString)
    end;;
  r <- reportToMaster E (respond task (snd reqResp));;
  match r with
  | Some e =>
      emit (EvLog LvError
              (ErrorStack E (Annotate ("load dataPartition failed,partitionId("
                                         +:+ fmtU (fst reqResp) +:+ ")") e)))
  | None => ret tt
  end.

(** ** operatePacket *)

Definition dispatch (E : Externals) : M unit :=
  p <- getPkg;;
  match Opcode_ p with
  | OpCreateFile => handleCreateFile E
  | OpWrite => handleWrite E
  | OpRead => handleRead E
  | OpBlobFileRepairRead => handleBlobFileRepairRead E
  | OpStreamRead => handleStreamRead E
  | OpMarkDelete => handleMarkDelete E
  | OpNotifyCompactBlobFile => handleNotifyCompact E
  | OpNotifyExtentRepair => handleNotifyExtentRepair E
  | OpNotifyBlobRepair => handleNotifyBlobRepair E
  | OpGetWatermark => handleGetWatermark E
  | OpExtentStoreGetAllWaterMark => handleExtentStoreGetAllWatermark E
  | OpBlobStoreGetAllWaterMark => handleBlobStoreGetAllWatermark E
  | OpCreateDataPartition => handleCreateDataPartition E
  | OpLoadDataPartition => handleLoadDataPartition E
  | OpDeleteDataPartition => handleDeleteDataPartition E
  | OpDataNodeHeartbeat => handleHeartbeats E
  | OpGetDataPartitionMetrics => handleGetDataPartitionMetrics E
  | OpOther code =>
      PackErrorBody E (ErrorText E ErrorUnknownOp)
        (ErrorText E ErrorUnknownOp +:+ Itoa code)
  end.

(** [pkg.Data[:n]]; slicing past the end of the array panics (the
    capacity of [Data] is taken to be its length). *)
Definition sliceTo (b : Buffer) (n : Z) : option (list byte) :=
  if n <=? len b then Some (firstn (Z.to_nat n) (bufBytes b)) else None.

Inductive Outcome : Type := Returned | Panicked.

Definition logLevelOf (o : Opcode) : LogLevel :=
  match o with
  | OpStreamRead | OpRead => LvRead
  | OpWrite => LvWrite
  | _ => LvInfo
  end.

(** The deferred function of [operatePacket]: [orgSize], [umpKey] and
    [start] are the locals it captures.  It answers the [err] handed to
    [ump.AfterTP], or nothing when the slice panics. *)
Definition operateDeferred (E : Externals) (orgSize : Z) (umpKey : string) (start : Z)
  : M Outcome :=
  p1 <- getPkg;;
  let resultSize := Size p1 in
  modPkg (withSize orgSize);;;
  p2 <- getPkg;;
  logged <-
    (if IsErrPack p2 then
       match sliceTo (Data p2) resultSize with
       | None => ret None
       | Some text =>
           let err := Errorf ("op(" +:+ GetOpMsg E p2 +:+ ") error("
                                +:+ string_of_list_byte text +:+ ")") in
           emit (EvLog LvError ("action[operatePacket] " +:+ ErrorText E err));;;
           ret (Some (Some err))
       end
     else
       let logContent :=
         ("action[operatePacket] "
            +:+ ActionMsg E p2 (GetOpMsg E p2) (remoteAddr E) start None +:+ ".")%string in
       emit (EvLog (logLevelOf (Opcode_ p2)) logContent);;;
       ret (Some None));;
  match logged with
  | None => ret Panicked
  | Some err =>
      modPkg (withSize resultSize);;;
      emit (EvUmpAfter umpKey err);;;
      ret Returned
  end.

Definition operatePacket (E : Externals) : M Outcome :=
  p <- getPkg;;
  let orgSize := Size p in
  let umpKey := (clusterId E +:+ "_datanode_" +:+ GetOpMsg E p)%string in
  emit (EvUmpBefore umpKey);;;
  t <- getTrace;;
  let start := unixNano E t in
  dispatch E;;;
  operateDeferred E orgSize umpKey start.

(** ** Reading a run *)

(** The events a handler added to the trace. *)
Definition newEvents (m m' : Machine) : Trace :=
  skipn (List.length (trace m)) (trace m').

(** The same machine, its partition in another state. *)
Definition retarget (dp : Partition) (m : Machine) : Machine :=
  mkMachine (pkg m) dp (trace m) (nextBuf m) (partitions m) (disks m).

(** The error reply a handler packs for [err]. *)
Definition errorReply (E : Externals) (a : Action) (what : string) (err : error)
                      (m : Machine) : Machine :=
  exec (replyWith E a what (Some err)) m.

(** Error-counter recordings and transfers in a trace. *)
Definition isDiskErrRecord (e : Event) : bool :=
  match e with EvAddDiskErrs _ _ _ => true | _ => false end.

Definition isTransfer (e : Event) : bool :=
  match e with EvSyncData _ _ _ | EvWriteToConn _ _ => true | _ => false end.

(** ** Sample collaborators, for concrete runs *)

Module Sample.

Definition texts (e : error) : string :=
  match e with
  | ErrorPartitionReadOnly => "partition is readonly"
  | ErrSyscallNoSpace => "no space left on device"
  | ErrStoreTypeMismatch => "store type mismatch"
  | _ => "error"
  end.

Definition names (a : Action) : string :=
  match a with
  | LogCreateFile => "CreateFile" | LogMarkDel => "MarkDelete"
  | LogWrite => "Write" | LogRead => "Read" | LogGetWm => "GetWatermark"
  | LogGetAllWm => "GetAllWatermark" | LogCompactBlobFile => "CompactBlobFile"
  | LogRepair => "Repair" | ActionStreamRead => "ActionStreamRead"
  | ActionWriteToCli => "ActionWriteToCli"
  | ActionFollowerRequireBlobFileRepairCmd => "ActionFollowerRequireBlobFileRepairCmd"
  | ActionGetDataPartitionMetrics => "ActionGetDataPartitionMetrics"
  end.

Definition task0 : AdminTask := mkAdminTask OpDeleteDataPartition [] None.

(** Collaborators that answer as told: [rd] and [wr] are the extent
    read and the connection write, [oid] the last object id of every
    blob file, [ew] the answer of every store write, [repair] the
    decoded repair task, [del] the decoded delete request. *)
Definition externals (rb : positive)
    (rd : Trace -> Z -> Z -> Z -> Z * list byte * option error)
    (wr : Trace -> Packet -> option error)
    (oid : Z) (ew : option error)
    (repair : RepairBlobFileTask + error)
    (del : Z * option error) : Externals :=
  {| readBlockSize := rb;
     blockSize := rb;
     clusterId := "c1";
     remoteAddr := "10.0.0.7:6000";
     sentinelText := texts;
     actionName := names;
     GetOpMsg := fun _ => "Op";
     GetUniqueLogId := fun p => "req" +:+ fmtU (ReqID p);
     ActionMsg := fun _ a addr _ _ => a +:+ "@" +:+ addr;
     repairTaskToString := fun t =>
       "BlobFileId(" +:+ fmtU (BlobFileId t) +:+ ")StartObj(" +:+ fmtU (StartObj t)
         +:+ ")EndObj(" +:+ fmtU (EndObj t) +:+ ")";
     adminTaskToString := fun _ => "task";
     compactTaskToString := fun t => fmtU (partitionId t) +:+ "_" +:+ fmtU (blobfileId t);
     ErrorStack := fun _ => "stack";
     unixNano := fun _ => 0;
     errorBody := fun a msg => list_byte_of_string (a +:+ "_" +:+ msg);
     errorCode := fun _ _ => 1;
     extentCreate := fun _ _ _ _ => ew;
     extentWrite := fun _ _ _ _ _ _ => ew;
     blobWrite := fun _ _ _ _ _ _ => ew;
     extentRead := rd;
     blobRead := rd;
     extentMarkDelete := fun _ _ => None;
     blobMarkDelete := fun _ _ _ _ => None;
     getWatermark := fun _ _ _ => ([], None);
     getAllWatermark := fun _ _ => ([], None);
     getLastOid := fun _ _ => (oid, None);
     syncData := fun _ _ _ _ p => (p, [], None);
     poolBytes := fun _ => [];
     writeToConn := wr;
     masterRequest := fun _ _ => None;
     createPartition := fun _ _ => inr (Foreign "exists");
     loadPartition := fun _ _ => emptyResponse;
     heartBeatBody := fun _ => EmptyString;
     runtimeMetrics := fun _ _ => inl [];
     putCompactTask := fun _ _ => None;
     unmarshalAdminTask := fun _ => task0;
     unmarshalCreateRequest := fun _ => mkCreateReq EmptyString 0 0 EmptyString;
     unmarshalDeleteRequest := fun _ => del;
     unmarshalLoadRequest := fun _ => 0;
     unmarshalHeartBeatRequest := fun _ => EmptyString;
     marshalAdminTask := fun _ => inl [];
     unmarshalMemberFileMetas := fun _ => None;
     unmarshalRepairTask := fun _ => repair |}.

Definition readOk : Trace -> Z -> Z -> Z -> Z * list byte * option error :=
  fun _ _ _ size => (0, zeros size, None).
Definition readFails : Trace -> Z -> Z -> Z -> Z * list byte * option error :=
  fun _ _ _ _ => (0, [], Some (Foreign "read failed")).
Definition writeOk : Trace -> Packet -> option error := fun _ _ => None.
Definition writeFails : Trace -> Packet -> option error :=
  fun _ _ => Some (Foreign "broken pipe").

Definition repair0 : RepairBlobFileTask := mkRepairTask 3 10 20.

(** Everything succeeds; full blocks are 4 bytes long. *)
Definition calm : Externals :=
  externals 4 readOk writeOk 20 None (inl repair0) (9, None).

(** The extent store fails every read. *)
Definition failingStore : Externals :=
  externals 4 readFails writeOk 20 None (inl repair0) (9, None).

(** The extent store fails every read and the connection every write. *)
Definition brokenPipe : Externals :=
  externals 4 readFails writeFails 20 None (inl repair0) (9, None).

(** The blob store is behind: its last object id is 19. *)
Definition behind : Externals :=
  externals 4 readOk writeOk 19 None (inl repair0) (9, None).

Definition partition (st : PartitionStatus) (avail : Z) : Partition :=
  mkPartition 1 st avail "/disk0" "/disk0/dp1".

Definition packet (op : Opcode) (mode : StoreMode)
                  (offset size : Z) (data : list byte) : Packet :=
  mkPacket op mode 1 7 offset size (mkBuffer 0 data) 0 (OpNotOk 0) 0 42.

Definition machine (p : Packet) (dp : Partition) : Machine :=
  mkMachine p dp [] 1 ∅ ∅.

End Sample.

(** ** Vocabulary of the statements *)

Definition diskErrRecords (t : Trace) : Trace := List.filter isDiskErrRecord t.
Definition transfers (t : Trace) : Trace := List.filter isTransfer t.

(** [needle] occurs in [hay]. *)
Definition contains (needle hay : string) : Prop :=
  exists pre post, hay = pre +:+ needle +:+ post.

(** The plain Ok reply. *)
Definition okReply (m : Machine) : Machine := exec PackOkReply m.

(** A handler rejects the request with [err]: the reply is the error
    reply packed for [err] and no collaborator has been called. *)
Definition rejects (E : Externals) (h : M unit) (a : Action) (what : string)
                   (err : error) (m : Machine) : Prop :=
  exec h m = errorReply E a what err m
  /\ trace (exec h m) = trace m
  /\ IsErrPack (pkg (exec h m)) = true.

(** A handler does not look at the state of the partition. *)
Definition ignoresPartitionState (h : M unit) : Prop :=
  forall dp m, exec h (retarget dp m) = retarget dp (exec h m).

(** The request passes the admission checks of Create and Write. *)
Definition passesAdmission (m : Machine) : Prop :=
  Status (dataPartition m) <> ReadOnly /\ 0 < Available (dataPartition m).

(** The number of payload bytes the unit holds. *)
Definition payloadLen (p : Packet) : Z := Z.min (Size p) (len (Data p)).

(** The unsigned integer written, most significant byte first, by
    [bs]. *)
Definition bigEndianValue (bs : list byte) : Z :=
  fold_left (fun acc b => acc * 256 + Z.of_N (Byte.to_N b)) bs 0.

(** The answers of the store writes recorded in a trace. *)
Definition storeWriteResults (t : Trace) : list (option error) :=
  flat_map (fun e => match e with
                     | EvExtentWrite _ _ _ _ _ res | EvBlobWrite _ _ _ _ _ res => [res]
                     | _ => []
                     end) t.

(** The run of [handleWrite] records the outcome exactly once. *)
Definition recordsWriteOnce (E : Externals) (m : Machine) : Prop :=
  exists res,
    diskErrRecords (newEvents m (exec (handleWrite E) m))
    = [EvAddDiskErrs (PartitionID (pkg m)) res WriteFlag].

(** The machine when the handler selected by the opcode has run
    inside [operatePacket]. *)
Definition afterHandler (E : Externals) (m : Machine) : Machine :=
  exec (dispatch E)
       (exec (emit (EvUmpBefore (clusterId E +:+ "_datanode_" +:+ GetOpMsg E (pkg m)))) m).

(** *** Stream read *)

(** The store reads of a trace, as (offset, size), and the payload sizes
    of the frames written to the connection. *)
Definition readCalls (t : Trace) : list (Z * Z) :=
  flat_map (fun e => match e with
                     | EvExtentRead _ off size _ _ => [(off, size)]
                     | _ => []
                     end) t.

Definition frameSizes (t : Trace) : list Z :=
  flat_map (fun e => match e with EvWriteToConn p _ => [Size p] | _ => [] end) t.

(** No store read and no connection write of the trace failed. *)
Definition succeeded (e : Event) : bool :=
  match e with
  | EvExtentRead _ _ _ _ (Some _) | EvWriteToConn _ (Some _) => false
  | _ => true
  end.

Definition sumZ (l : list Z) : Z := fold_right Z.add 0 l.

Definition ceilDiv (a b : Z) : Z := (a + b - 1) / b.

(** The chunking the protocol prescribes: while bytes remain, the next
    chunk is the smaller of what remains and the maximum chunk. *)
Fixpoint chunkSizes (maxChunk : Z) (fuel : nat) (remaining : Z) : list Z :=
  match fuel with
  | O => []
  | S fuel' =>
      if remaining <=? 0 then []
      else let chunk := Z.min remaining maxChunk in
           chunk :: chunkSizes maxChunk fuel' (remaining - chunk)
  end.

Definition chunks (maxChunk remaining : Z) : list Z :=
  chunkSizes maxChunk (S (Z.to_nat remaining)) remaining.

Fixpoint offsetsFrom (offset : Z) (sizes : list Z) : list Z :=
  match sizes with
  | [] => []
  | c :: rest => offset :: offsetsFrom (offset + c) rest
  end.

(** The read offsets of a run advance by the frame sizes from the
    request's offset. *)
Definition offsetsAdvance (E : Externals) (m : Machine) : Prop :=
  let ev := newEvents m (exec (handleStreamRead E) m) in
  forall i, (i < List.length (frameSizes ev))%nat ->
    nth i (map fst (readCalls ev)) 0
    = Offset (pkg m) + sumZ (firstn i (frameSizes ev)).

(** The first connection write that failed: the packet it carried and
    the events that followed it. *)
Fixpoint afterFailedWrite (t : Trace) : option (Packet * Trace) :=
  match t with
  | [] => None
  | EvWriteToConn p (Some _) :: rest => Some (p, rest)
  | _ :: rest => afterFailedWrite rest
  end.

(** *** The life of a buffer *)

Inductive Stage : Type :=
| Checkout (size : Z)
| Filled
| Sent (size : Z) (ok : bool)
| Stored (ok : bool)
| PutBack.

Definition isNone {A} (o : option A) : bool :=
  match o with None => true | Some _ => false end.

Definition stageOf (id : nat) (e : Event) : list Stage :=
  match e with
  | EvBuffersGet i size => if Nat.eqb i id then [Checkout size] else []
  | EvExtentRead _ _ _ i _ | EvBlobRead _ _ _ i _ =>
      if Nat.eqb i id then [Filled] else []
  | EvWriteToConn p res =>
      if Nat.eqb (bufId (Data p)) id then [Sent (Size p) (isNone res)] else []
  | EvExtentWrite _ _ _ d _ res | EvBlobWrite _ _ _ d _ res =>
      if Nat.eqb (bufId d) id then [Stored (isNone res)] else []
  | EvBuffersPut i => if Nat.eqb i id then [PutBack] else []
  | _ => []
  end.

(** What happened, in order, to the buffer with ticket [id]. *)
Definition life (id : nat) (t : Trace) : list Stage := flat_map (stageOf id) t.

(** The lives a buffer can have in a stream read whose full block is
    [C] bytes: a partial chunk lives in a fresh buffer and never meets
    the pool; a checked-out buffer goes back once, after its frame has
    been written. *)
Inductive StreamLife (C : Z) : list Stage -> Prop :=
| life_unused : StreamLife C []
| life_reply n ok : StreamLife C [Sent n ok]
| life_fresh_unread : StreamLife C [Filled]
| life_fresh c ok : c <> C -> StreamLife C [Filled; Sent c ok]
| life_pooled_unread : StreamLife C [Checkout C; Filled]
| life_pooled_unsent : StreamLife C [Checkout C; Filled; Sent C false]
| life_pooled : StreamLife C [Checkout C; Filled; Sent C true; PutBack].

(** The lives left by a round that went through. *)
Inductive SettledLife (C : Z) : list Stage -> Prop :=
| settled_unused : SettledLife C []
| settled_fresh c : c <> C -> SettledLife C [Filled; Sent c true]
| settled_pooled : SettledLife C [Checkout C; Filled; Sent C true; PutBack].

(** The lives of the payload buffer of a Write on an Extent partition
    whose full block is [B] bytes. *)
Inductive WriteLife (B : Z) (size : Z) : list Stage -> Prop :=
| write_failed : WriteLife B size [Stored false]
| write_kept : WriteLife B size [Stored true]
| write_returned : size = B -> WriteLife B size [Stored true; PutBack].

Definition isPutBack (s : Stage) : bool :=
  match s with PutBack => true | _ => false end.

Definition isCheckout (s : Stage) : bool :=
  match s with Checkout _ => true | _ => false end.

(** How often the buffer was returned to the pool. *)
Definition putBacks (l : list Stage) : nat := List.length (List.filter isPutBack l).

(** Every buffer checked out in the run is returned exactly once. *)
Definition everyCheckoutPutBack (ev : Trace) : Prop :=
  forall id, existsb isCheckout (life id ev) = true -> putBacks (life id ev) = 1%nat.

(** *** The rounds of the stream-read loop, as a relation *)

Definition currReadSizeOf (E : Externals) (needReplySize : Z) : Z :=
  uint32 (Min needReplySize (ReadBlockSize E)).

(** The events of a round up to the end of its store read, into the
    buffer with ticket [n]. *)
Definition readEvents (E : Externals) (fileID : Z) (n : nat) (curr offset : Z)
                      (res : option error) : Trace :=
  (if curr =? ReadBlockSize E then [EvBuffersGet n (ReadBlockSize E)] else [])
  ++ [EvUmpBefore (streamUmpKey E);
      EvExtentRead fileID offset (int64 curr) n res;
      EvUmpAfter (streamUmpKey E) res].

(** [RoundShape E fileID n curr offset exit ev n']: a round that starts
    with allocation counter [n] reads [curr] bytes at [offset], adds the
    events [ev], leaves the counter at [n'], and either leaves the loop
    ([Some exit]) or goes on ([None]). *)
Inductive RoundShape (E : Externals) (fileID : Z) (n : nat) (curr offset : Z)
  : option LoopExit -> Trace -> nat -> Prop :=
| round_read_failed (e : error) (p : Packet) (w : option error) (text : string) :
    bufId (Data p) = S n -> IsErrPack p = true ->
    RoundShape E fileID n curr offset (Some LoopReadFailed)
      (readEvents E fileID n curr offset (Some e)
       ++ EvWriteToConn p w
          :: (if isNone w then [] else [EvLog LvError text]))
      (S (S n))
| round_write_failed (p : Packet) (e : error) (text : string) :
    bufId (Data p) = n -> Size p = curr -> IsErrPack p = false ->
    RoundShape E fileID n curr offset (Some LoopWriteFailed)
      (readEvents E fileID n curr offset None
       ++ [EvWriteToConn p (Some e); EvLog LvError text; EvConnClose])
      (S n)
| round_sent (p : Packet) :
    bufId (Data p) = n -> Size p = curr -> IsErrPack p = false ->
    RoundShape E fileID n curr offset None
      (readEvents E fileID n curr offset None
       ++ EvWriteToConn p None
          :: (if curr =? ReadBlockSize E then [EvBuffersPut n] else []))
      (S n).

(** [Rounds E fileID n need offset ev result]: the loop entered with
    locals [need] and [offset] adds the events [ev] and ends as
    [result]. *)
Inductive Rounds (E : Externals) (fileID : Z)
  : nat -> Z -> Z -> Trace -> nat -> LoopResult -> Prop :=
| rounds_done n need offset :
    need <= 0 ->
    Rounds E fileID n need offset [] n (mkLoopResult LoopDone need offset)
| rounds_stop n need offset exit ev n' :
    0 < need ->
    RoundShape E fileID n (currReadSizeOf E need) offset (Some exit) ev n' ->
    Rounds E fileID n need offset ev n' (mkLoopResult exit need offset)
| rounds_next n need offset ev n' ev' n'' result :
    0 < need ->
    RoundShape E fileID n (currReadSizeOf E need) offset None ev n' ->
    Rounds E fileID n'
           (uint32 (need - currReadSizeOf E need))
           (int64 (offset + int64 (currReadSizeOf E need))) ev' n'' result ->
    Rounds E fileID n need offset (ev ++ ev') n'' result.

(** * Properties *)

(** Symbolic execution of a handler on a machine given by its fields. *)
Ltac go :=
  cbv beta zeta iota delta
    [exec bind ret getPkg getTrace getDataPartition modPkg emit emitAll make call
     modPartitions modDisks PackErrorBody PackOkReply PackOkReadReply PackOkWithBody
     WriteToConn addDiskErrs replyWith fillData BuffersGet BuffersPut logWriteToCli
     DeletePartition reportToMaster withSize withData withCrc withResultCode
     fst snd pkg dataPartition trace nextBuf partitions disks];
  cbn [Opcode_ StoreMode_ PartitionID FileID Offset Size Data Crc ResultCode_
       StartT ReqID bufId bufBytes].

Ltac fields m :=
  let p := fresh "p" in
  destruct m as [p ? ? ? ? ?];
  destruct p as [? ? ? ? ? ? ? ? ? ? ?];
  cbn [pkg dataPartition trace nextBuf partitions disks
       Opcode_ StoreMode_ PartitionID FileID Offset Size Data Crc ResultCode_
       StartT ReqID] in *.

Lemma newEvents_app (m m' : Machine) (ev : Trace) :
  trace m' = trace m ++ ev -> newEvents m m' = ev.
Proof.
  intros H. unfold newEvents. rewrite H.
  rewrite skipn_app, skipn_all, Nat.sub_diag. reflexivity.
Qed.

Lemma newEvents_same (m m' : Machine) :
  trace m' = trace m -> newEvents m m' = [].
Proof.
  intros H. apply newEvents_app. rewrite H, app_nil_r. reflexivity.
Qed.

Lemma append_assoc (a b c : string) : (a +:+ b) +:+ c = a +:+ b +:+ c.
Proof.
  induction a as [|x a IH]; [reflexivity |].
  change (String x ((a +:+ b) +:+ c) = String x (a +:+ b +:+ c)).
  f_equal. exact IH.
Qed.

Lemma contains_here (x pre post : string) : contains x (pre +:+ x +:+ post).
Proof. exists pre, post. reflexivity. Qed.

Lemma contains_append_r (x a b : string) : contains x b -> contains x (a +:+ b).
Proof.
  intros (pre & post & ->). exists (a +:+ pre), post.
  now rewrite !append_assoc.
Qed.

Ltac by_mode := match goal with mode : StoreMode |- _ => destruct mode end.

(** ** Admission *)

Section Admission.
Context (E : Externals).

Lemma errorReply_quiet a what err m :
  trace (errorReply E a what err m) = trace m
  /\ IsErrPack (pkg (errorReply E a what err m)) = true.
Proof. unfold errorReply. fields m. go. split; reflexivity. Qed.

Lemma rejects_intro h a what err m :
  exec h m = errorReply E a what err m -> rejects E h a what err m.
Proof.
  intros Heq. unfold rejects. rewrite Heq.
  split; [reflexivity | apply errorReply_quiet].
Qed.

Lemma create_readonly m :
  Status (dataPartition m) = ReadOnly ->
  rejects E (handleCreateFile E) LogCreateFile "CreateFile Error" ErrorPartitionReadOnly m.
Proof.
  intros H. apply rejects_intro.
  unfold handleCreateFile, createFileBody, errorReply. fields m. go.
  rewrite H. reflexivity.
Qed.

Lemma write_readonly m :
  Status (dataPartition m) = ReadOnly ->
  rejects E (handleWrite E) LogWrite "Write Error" ErrorPartitionReadOnly m.
Proof.
  intros H. apply rejects_intro.
  unfold handleWrite, writeBody, errorReply. fields m. go.
  rewrite H. reflexivity.
Qed.

Lemma create_nospace m :
  Status (dataPartition m) <> ReadOnly ->
  Available (dataPartition m) <= 0 ->
  rejects E (handleCreateFile E) LogCreateFile "CreateFile Error" ErrSyscallNoSpace m.
Proof.
  intros Hs Ha. apply rejects_intro. apply Z.leb_le in Ha.
  unfold handleCreateFile, createFileBody, errorReply. fields m. go.
  destruct (Status _); [congruence | |]; rewrite Ha; reflexivity.
Qed.

Lemma write_nospace m :
  Status (dataPartition m) <> ReadOnly ->
  Available (dataPartition m) <= 0 ->
  rejects E (handleWrite E) LogWrite "Write Error" ErrSyscallNoSpace m.
Proof.
  intros Hs Ha. apply rejects_intro. apply Z.leb_le in Ha.
  unfold handleWrite, writeBody, errorReply. fields m. go.
  destruct (Status _); [congruence | |]; rewrite Ha; reflexivity.
Qed.

Lemma read_ignores : ignoresPartitionState (handleRead E).
Proof.
  intros dp m. unfold handleRead, retarget. fields m. go.
  by_mode; go.
  - destruct (blobRead _ _ _ _ _) as [[c b] [e|]]; reflexivity.
  - destruct (extentRead _ _ _ _ _) as [[c b] [e|]]; reflexivity.
  - reflexivity.
Qed.

Lemma markDelete_ignores : ignoresPartitionState (handleMarkDelete E).
Proof.
  intros dp m. unfold handleMarkDelete, retarget. fields m. go.
  by_mode; go.
  - destruct (blobMarkDelete _ _ _ _ _) as [e|]; reflexivity.
  - destruct (extentMarkDelete _ _ _) as [e|]; reflexivity.
  - reflexivity.
Qed.

Lemma getWatermark_ignores : ignoresPartitionState (handleGetWatermark E).
Proof.
  intros dp m. unfold handleGetWatermark, retarget. fields m. go.
  by_mode; go.
  - destruct (getWatermark _ _ _ _) as [b [e|]]; reflexivity.
  - destruct (getWatermark _ _ _ _) as [b [e|]]; reflexivity.
  - reflexivity.
Qed.

Lemma allWatermark_ignores mode what :
  ignoresPartitionState (handleAllWatermark E mode what).
Proof.
  intros dp m. unfold handleAllWatermark, retarget. fields m. go.
  destruct (getAllWatermark _ _ _) as [b [e|]]; reflexivity.
Qed.

(** C2.  Create and Write on a ReadOnly partition are rejected with
    ErrorPartitionReadOnly, and on a partition that is not ReadOnly
    but has no capacity left with ErrSyscallNoSpace, in both cases
    before any collaborator is called; Read, MarkDelete and the
    watermark queries run the same whatever the partition's status
    and capacity. *)
Theorem admission_gating (m : Machine) :
  (Status (dataPartition m) = ReadOnly ->
     rejects E (handleCreateFile E) LogCreateFile "CreateFile Error"
             ErrorPartitionReadOnly m
     /\ rejects E (handleWrite E) LogWrite "Write Error" ErrorPartitionReadOnly m)
  /\ (Status (dataPartition m) <> ReadOnly -> Available (dataPartition m) <= 0 ->
     rejects E (handleCreateFile E) LogCreateFile "CreateFile Error"
             ErrSyscallNoSpace m
     /\ rejects E (handleWrite E) LogWrite "Write Error" ErrSyscallNoSpace m)
  /\ ignoresPartitionState (handleRead E)
  /\ ignoresPartitionState (handleMarkDelete E)
  /\ ignoresPartitionState (handleGetWatermark E)
  /\ ignoresPartitionState (handleExtentStoreGetAllWatermark E)
  /\ ignoresPartitionState (handleBlobStoreGetAllWatermark E).
Proof.
  split; [| split].
  - intros H. split; [apply create_readonly | apply write_readonly]; exact H.
  - intros Hs Ha. split; [apply create_nospace | apply write_nospace]; assumption.
  - repeat split.
    + apply read_ignores.
    + apply markDelete_ignores.
    + apply getWatermark_ignores.
    + apply allWatermark_ignores.
    + apply allWatermark_ignores.
Qed.
End Admission.

(** ** Store-mode routing of Write, MarkDelete and Create *)

Section Routing.
Context (E : Externals).

Lemma admission_passed m : passesAdmission m ->
  match Status (dataPartition m) with
  | ReadOnly => False
  | _ => (Available (dataPartition m) <=? 0) = false
  end.
Proof.
  intros [Hs Ha]. destruct (Status (dataPartition m)); try congruence;
    apply Z.leb_gt; exact Ha.
Qed.

Lemma okReply_ok m : IsErrPack (pkg (okReply m)) = false /\ trace (okReply m) = trace m.
Proof. unfold okReply. fields m. go. split; reflexivity. Qed.

(** The events of a Write that passes admission, by store mode. *)
Lemma write_trace m : passesAdmission m ->
  exists ev, trace (exec (handleWrite E) m) = trace m ++ ev /\
    match StoreMode_ (pkg m) with
    | BlobStoreMode =>
        exists res,
          ev = [EvBlobWrite (uint32 (FileID (pkg m))) (uint64 (Offset (pkg m)))
                  (int64 (Size (pkg m))) (Data (pkg m)) (Crc (pkg m)) res;
                EvAddDiskErrs (PartitionID (pkg m)) res WriteFlag]
    | ExtentStoreMode =>
        exists res,
          ev = [EvExtentWrite (FileID (pkg m)) (Offset (pkg m))
                  (int64 (Size (pkg m))) (Data (pkg m)) (Crc (pkg m)) res;
                EvAddDiskErrs (PartitionID (pkg m)) res WriteFlag]
               ++ (if isNone res && isOpWrite (Opcode_ (pkg m))
                      && (Size (pkg m) =? BlockSize E)
                   then [EvBuffersPut (bufId (Data (pkg m)))] else [])
    | OtherStoreMode _ => ev = []
    end.
Proof.
  intros Hadm. pose proof (admission_passed m Hadm) as Hg.
  unfold handleWrite, writeBody. fields m. go.
  destruct (Status _); [contradiction | |];
    rewrite Hg; by_mode; go.
  1, 4: destruct (blobWrite _ _ _ _ _ _ _) as [e|]; go;
        (eexists; split; [rewrite <- !app_assoc; reflexivity |]);
        eexists; reflexivity.
  1, 3: destruct (extentWrite _ _ _ _ _ _ _) as [e|]; go;
        [| destruct (isOpWrite _ && _) eqn:Hput; go ];
        (eexists; split; [rewrite <- ?app_assoc; reflexivity |]);
        [ exists (Some e); reflexivity
        | exists None; cbn [isNone andb app]; rewrite Hput; reflexivity .. ].
  all: exists []; rewrite app_nil_r; split; reflexivity.
Qed.

Lemma write_other m v : passesAdmission m ->
  StoreMode_ (pkg m) = OtherStoreMode v ->
  exec (handleWrite E) m = okReply m.
Proof.
  intros Hadm Hm. pose proof (admission_passed m Hadm) as Hg.
  unfold handleWrite, writeBody, okReply. fields m. go.
  destruct (Status _); [contradiction | |]; rewrite Hg; subst; reflexivity.
Qed.

(** C7, as amended.  A Write that passes admission on a Blob or Extent
    partition records the answer of its store write, success or the
    error, exactly once in the disk's error counter for the partition
    and the write direction; a Write stopped at admission records
    nothing. *)
Theorem write_outcome_recording (m : Machine) :
  let ev := newEvents m (exec (handleWrite E) m) in
  (passesAdmission m ->
   StoreMode_ (pkg m) = BlobStoreMode \/ StoreMode_ (pkg m) = ExtentStoreMode ->
   exists res,
     storeWriteResults ev = [res]
     /\ diskErrRecords ev = [EvAddDiskErrs (PartitionID (pkg m)) res WriteFlag])
  /\ (~ passesAdmission m -> diskErrRecords ev = []).
Proof.
  cbn zeta. split.
  - intros Hadm Hmode.
    destruct (write_trace m Hadm) as (ev & Htr & Hev).
    rewrite (newEvents_app _ _ _ Htr).
    destruct Hmode as [Hm | Hm]; rewrite Hm in Hev;
      destruct Hev as (res & ->); exists res.
    + split; reflexivity.
    + destruct (_ && _); split; reflexivity.
  - intros Hna.
    assert (Hrej : trace (exec (handleWrite E) m) = trace m).
    { destruct (Status (dataPartition m)) eqn:Hs.
      - apply (write_readonly E m Hs).
      - destruct (Z_le_gt_dec (Available (dataPartition m)) 0) as [Hle | Hgt].
        + apply (write_nospace E m); [congruence | exact Hle].
        + exfalso. apply Hna. split; [congruence | lia].
      - destruct (Z_le_gt_dec (Available (dataPartition m)) 0) as [Hle | Hgt].
        + apply (write_nospace E m); [congruence | exact Hle].
        + exfalso. apply Hna. split; [congruence | lia]. }
    rewrite (newEvents_same _ _ Hrej). reflexivity.
Qed.

Lemma markDelete_other m v :
  StoreMode_ (pkg m) = OtherStoreMode v ->
  exec (handleMarkDelete E) m = okReply m.
Proof.
  intros Hm. unfold handleMarkDelete, okReply. fields m. go.
  subst. reflexivity.
Qed.

(** C10.  When the store mode is neither Blob nor Extent, a Write that
    passes admission and a MarkDelete call no store, record nothing in
    the disk error counter and answer with the plain Ok reply. *)
Theorem store_mode_fall_through (m : Machine) (v : Z) :
  StoreMode_ (pkg m) = OtherStoreMode v ->
  (passesAdmission m ->
     exec (handleWrite E) m = okReply m
     /\ newEvents m (exec (handleWrite E) m) = [])
  /\ exec (handleMarkDelete E) m = okReply m
  /\ newEvents m (exec (handleMarkDelete E) m) = []
  /\ IsErrPack (pkg (okReply m)) = false.
Proof.
  intros Hm. split; [| split; [| split]].
  - intros Hadm.
    destruct (write_trace m Hadm) as (ev & Htr & Hev).
    rewrite Hm in Hev. subst ev.
    split; [apply (write_other m v Hadm Hm) |].
    apply newEvents_same. rewrite Htr. apply app_nil_r.
  - apply (markDelete_other m v Hm).
  - apply newEvents_same. rewrite (markDelete_other m v Hm). apply okReply_ok.
  - apply okReply_ok.
Qed.
End Routing.

(** C7 as stated fails: a Write on a ReadOnly partition is answered
    before anything is recorded. *)
Lemma write_recording_counterexample :
  ~ recordsWriteOnce Sample.calm
      (Sample.machine (Sample.packet OpWrite ExtentStoreMode 0 4 [x00; x00; x00; x00])
                      (Sample.partition ReadOnly 10)).
Proof. intros [res H]. vm_compute in H. discriminate H. Qed.

(** ** The inode hint of CreateFile *)

Lemma lor_high (x z k : Z) :
  0 <= k -> 0 <= x < 2 ^ k -> Z.lor x (z * 2 ^ k) = x + z * 2 ^ k.
Proof.
  intros Hk Hx.
  assert (Hland : Z.land x (z * 2 ^ k) = 0).
  { apply Z.bits_inj'. intros n Hn.
    rewrite Z.land_spec, Z.bits_0, <- Z.shiftl_mul_pow2 by exact Hk.
    destruct (Z_lt_le_dec n k) as [Hlt | Hge].
    - rewrite (Z.shiftl_spec_low z k n Hlt). apply andb_false_r.
    - assert (Hbit : Z.testbit x n = false).
      { destruct (Z.eq_dec x 0) as [-> | Hx0]; [apply Z.bits_0 |].
        apply Z.bits_above_log2; [lia |].
        apply Z.log2_lt_pow2; [lia |].
        apply Z.lt_le_trans with (2 ^ k); [lia |].
        apply Z.pow_le_mono_r; lia. }
      rewrite Hbit. reflexivity. }
  rewrite <- Z.lxor_lor by exact Hland.
  symmetry. apply Z.add_nocarry_lxor. exact Hland.
Qed.

Lemma byte_range (b : byte) : 0 <= Z.of_N (Byte.to_N b) < 256.
Proof. pose proof (Byte.to_N_bounded b). lia. Qed.

(** [binary.BigEndian.Uint64] reads the first eight bytes as a number
    written most significant byte first. *)
Lemma BigEndian_Uint64_value (b : list byte) :
  (8 <= List.length b)%nat ->
  BigEndian_Uint64 b = bigEndianValue (firstn 8 b).
Proof.
  intros Hlen.
  destruct b as [|b0 [|b1 [|b2 [|b3 [|b4 [|b5 [|b6 [|b7 rest]]]]]]]];
    try (simpl in Hlen; lia).
  unfold BigEndian_Uint64, bigEndianValue, byteAt. cbn [nth firstn fold_left].
  pose proof (byte_range b0). pose proof (byte_range b1).
  pose proof (byte_range b2). pose proof (byte_range b3).
  pose proof (byte_range b4). pose proof (byte_range b5).
  pose proof (byte_range b6). pose proof (byte_range b7).
  set (x := Z.of_N (Byte.to_N b7)) in *. set (x0 := Z.of_N (Byte.to_N b6)) in *.
  set (x1 := Z.of_N (Byte.to_N b5)) in *. set (x2 := Z.of_N (Byte.to_N b4)) in *.
  set (x3 := Z.of_N (Byte.to_N b3)) in *. set (x4 := Z.of_N (Byte.to_N b2)) in *.
  set (x5 := Z.of_N (Byte.to_N b1)) in *. set (x6 := Z.of_N (Byte.to_N b0)) in *.
  clearbody x x0 x1 x2 x3 x4 x5 x6.
  rewrite !Z.shiftl_mul_pow2 by lia.
  rewrite (lor_high (x5 * 2 ^ 48) x6 56) by lia.
  replace (x5 * 2 ^ 48 + x6 * 2 ^ 56) with ((x5 + x6 * 2 ^ 8) * 2 ^ 48) by lia.
  rewrite (lor_high (x4 * 2 ^ 40) _ 48) by lia.
  replace (x4 * 2 ^ 40 + (x5 + x6 * 2 ^ 8) * 2 ^ 48)
    with ((x4 + x5 * 2 ^ 8 + x6 * 2 ^ 16) * 2 ^ 40) by lia.
  rewrite (lor_high (x3 * 2 ^ 32) _ 40) by lia.
  replace (x3 * 2 ^ 32 + (x4 + x5 * 2 ^ 8 + x6 * 2 ^ 16) * 2 ^ 40)
    with ((x3 + x4 * 2 ^ 8 + x5 * 2 ^ 16 + x6 * 2 ^ 24) * 2 ^ 32) by lia.
  rewrite (lor_high (x2 * 2 ^ 24) _ 32) by lia.
  replace (x2 * 2 ^ 24 + (x3 + x4 * 2 ^ 8 + x5 * 2 ^ 16 + x6 * 2 ^ 24) * 2 ^ 32)
    with ((x2 + x3 * 2 ^ 8 + x4 * 2 ^ 16 + x5 * 2 ^ 24 + x6 * 2 ^ 32) * 2 ^ 24) by lia.
  rewrite (lor_high (x1 * 2 ^ 16) _ 24) by lia.
  replace (x1 * 2 ^ 16
           + (x2 + x3 * 2 ^ 8 + x4 * 2 ^ 16 + x5 * 2 ^ 24 + x6 * 2 ^ 32) * 2 ^ 24)
    with ((x1 + x2 * 2 ^ 8 + x3 * 2 ^ 16 + x4 * 2 ^ 24 + x5 * 2 ^ 32 + x6 * 2 ^ 40)
          * 2 ^ 16) by lia.
  rewrite (lor_high (x0 * 2 ^ 8) _ 16) by lia.
  replace (x0 * 2 ^ 8
           + (x1 + x2 * 2 ^ 8 + x3 * 2 ^ 16 + x4 * 2 ^ 24 + x5 * 2 ^ 32 + x6 * 2 ^ 40)
             * 2 ^ 16)
    with ((x0 + x1 * 2 ^ 8 + x2 * 2 ^ 16 + x3 * 2 ^ 24 + x4 * 2 ^ 32 + x5 * 2 ^ 40
           + x6 * 2 ^ 48) * 2 ^ 8) by lia.
  rewrite (lor_high x _ 8) by lia.
  rewrite firstn_O. cbn [fold_left]. lia.
Qed.

Lemma inodeHint_value (p : Packet) :
  inodeHint p = if 8 <=? payloadLen p
                then bigEndianValue (firstn 8 (bufBytes (Data p))) else 0.
Proof.
  unfold inodeHint, payloadLen, len.
  destruct (8 <=? Z.of_nat (List.length (bufBytes (Data p)))) eqn:Hl;
    destruct (8 <=? Size p) eqn:Hs; cbn [andb].
  - apply Z.leb_le in Hl, Hs.
    replace (8 <=? Z.min _ _) with true by (symmetry; apply Z.leb_le; lia).
    apply BigEndian_Uint64_value. lia.
  - apply Z.leb_gt in Hs.
    replace (8 <=? Z.min _ _) with false by (symmetry; apply Z.leb_gt; lia).
    reflexivity.
  - apply Z.leb_gt in Hl.
    replace (8 <=? Z.min _ _) with false by (symmetry; apply Z.leb_gt; lia).
    reflexivity.
  - apply Z.leb_gt in Hl.
    replace (8 <=? Z.min _ _) with false by (symmetry; apply Z.leb_gt; lia).
    reflexivity.
Qed.

Section CreateFile.
Context (E : Externals).

Lemma create_blob m : passesAdmission m ->
  StoreMode_ (pkg m) = BlobStoreMode ->
  rejects E (handleCreateFile E) LogCreateFile "CreateFile Error"
    (Annotate " CreateFile only support ExtentMode DataPartition" ErrStoreTypeMismatch) m.
Proof.
  intros Hadm Hm. pose proof (admission_passed m Hadm) as Hg.
  apply rejects_intro.
  unfold handleCreateFile, createFileBody, errorReply. fields m. go.
  destruct (Status _); [contradiction | |]; rewrite Hg; subst; reflexivity.
Qed.

Lemma create_extent m : passesAdmission m ->
  StoreMode_ (pkg m) = ExtentStoreMode ->
  newEvents m (exec (handleCreateFile E) m)
  = [EvExtentCreate (FileID (pkg m)) (inodeHint (pkg m)) false].
Proof.
  intros Hadm Hm. pose proof (admission_passed m Hadm) as Hg.
  apply newEvents_app.
  unfold handleCreateFile, createFileBody. fields m. go.
  destruct (Status _); [contradiction | |];
    rewrite Hg; subst; go; destruct (extentCreate _ _ _ _ _); reflexivity.
Qed.

(** C8.  A CreateFile that passes admission is rejected with
    ErrStoreTypeMismatch on a Blob partition, whatever its payload; on
    an Extent partition it creates the extent with the inode hint read
    from the first eight payload bytes, most significant byte first,
    when the payload has at least eight bytes, and with hint zero
    otherwise. *)
Theorem createFile_routing (m : Machine) :
  passesAdmission m ->
  (StoreMode_ (pkg m) = BlobStoreMode ->
     rejects E (handleCreateFile E) LogCreateFile "CreateFile Error"
       (Annotate " CreateFile only support ExtentMode DataPartition"
                 ErrStoreTypeMismatch) m)
  /\ (StoreMode_ (pkg m) = ExtentStoreMode ->
      newEvents m (exec (handleCreateFile E) m)
      = [EvExtentCreate (FileID (pkg m))
           (if 8 <=? payloadLen (pkg m)
            then bigEndianValue (firstn 8 (bufBytes (Data (pkg m)))) else 0)
           false]).
Proof.
  intros Hadm. split; intros Hm.
  - apply create_blob; assumption.
  - rewrite <- inodeHint_value. apply create_extent; assumption.
Qed.
End CreateFile.

(** ** The repair-read handshake *)

Section RepairRead.
Context (E : Externals).

(** C1.  For a repair-read request whose payload decodes to [task],
    with [localOid] the last object id the blob store reports for the
    blob file: when [localOid < EndObj] the reply is an error reply
    whose message holds the task's description and [localOid], and
    nothing is transferred; when [localOid >= EndObj] (equality
    included) the handler goes on to transfer the objects from
    [StartObj] to [localOid]. *)
Theorem repair_read_gate (m : Machine) (task : RepairBlobFileTask) :
  unmarshalRepairTask E (bufBytes (Data (pkg m))) = inl task ->
  let blobfileID := uint32 (BlobFileId task) in
  let localOid := fst (getLastOid E (trace m) blobfileID) in
  let m' := exec (handleBlobFileRepairRead E) m in
  (localOid < EndObj task ->
     IsErrPack (pkg m') = true
     /\ transfers (newEvents m m') = []
     /\ exists msg,
          bufBytes (Data (pkg m'))
          = errorBody E (actionName E ActionFollowerRequireBlobFileRepairCmd) msg
          /\ contains (repairTaskToString E task) msg
          /\ contains (fmtU localOid) msg)
  /\ (EndObj task <= localOid ->
      exists sent,
        transfers (newEvents m m')
        = EvSyncData blobfileID (StartObj task) localOid :: sent).
Proof.
  intros Hdec. cbn zeta.
  destruct (getLastOid E (trace m) (uint32 (BlobFileId task))) as [localOid oidErr] eqn:Hoid.
  cbn [fst]. split.
  - intros Hlt. apply Z.ltb_lt in Hlt.
    unfold handleBlobFileRepairRead. fields m. go.
    rewrite Hdec. go. rewrite Hoid, Hlt. go.
    split; [reflexivity |]. split.
    + erewrite newEvents_app by (cbn [trace]; rewrite <- app_assoc; reflexivity).
      reflexivity.
    + eexists. split; [reflexivity |]. cbn [ErrorText]. unfold repairBehindText.
      split.
      * do 2 apply contains_append_r. apply contains_here.
      * do 4 apply contains_append_r. apply contains_here.
  - intros Hge. apply Z.ltb_ge in Hge.
    unfold handleBlobFileRepairRead. fields m. go.
    rewrite Hdec. go. rewrite Hoid, Hge. go.
    destruct (syncData E _ _ _ _ _) as [[p' sent] [e|]]; go;
      exists (transfers sent);
      (erewrite newEvents_app by (cbn [trace]; rewrite <- !app_assoc; reflexivity));
      reflexivity.
Qed.
End RepairRead.

(** ** Deleting a partition *)

Section DeletePartition.
Context (E : Externals).

(** C9.  The reply to a DeleteDataPartition packet is Ok in every
    case.  When the task carries that opcode and its request decodes,
    the partition with the request's id is taken out of the partition
    space without being looked up first, and the response sent to the
    master has status Success, also when the space holds no such
    partition. *)
Theorem delete_partition_unconditional (m : Machine) :
  let task := unmarshalAdminTask E (bufBytes (Data (pkg m))) in
  let request := unmarshalDeleteRequest E (taskRequest task) in
  let m' := exec (handleDeleteDataPartition E) m in
  ResultCode_ (pkg m') = OpOk
  /\ (taskOpCode task = OpDeleteDataPartition -> snd request = None ->
      partitions m' = delete (uint32 (fst request)) (partitions m)
      /\ (partitions m !! uint32 (fst request) = None -> partitions m' = partitions m)
      /\ exists res log,
           newEvents m m'
           = EvMasterRequest
               (respond task (mkResponse (uint64 (fst request)) TaskSuccess EmptyString EmptyString)) res
             :: log).
Proof.
  cbn zeta. fields m.
  set (task := unmarshalAdminTask E (bufBytes Data0)).
  destruct (unmarshalDeleteRequest E (taskRequest task)) as [id decErr] eqn:Hreq.
  cbn [fst snd]. split.
  - unfold handleDeleteDataPartition. go. fold task.
    destruct (taskOpCode task); go;
      try (destruct (masterRequest _ _ _); reflexivity).
    rewrite Hreq. destruct decErr; go; destruct (masterRequest _ _ _); reflexivity.
  - intros Hop ->.
    unfold handleDeleteDataPartition. go. fold task. rewrite Hop, Hreq. go.
    destruct (masterRequest _ _ _) as [e|] eqn:Hsend; go.
    + split; [reflexivity |]. split; [intros Hnone; now apply delete_id |].
      eexists; eexists.
      erewrite newEvents_app by (cbn [trace]; rewrite <- ?app_assoc; reflexivity).
      reflexivity.
    + split; [reflexivity |]. split; [intros Hnone; now apply delete_id |].
      eexists; eexists.
      erewrite newEvents_app by (cbn [trace]; reflexivity).
      reflexivity.
Qed.
End DeletePartition.

(** ** The dispatcher's size snapshot *)

Section Dispatcher.
Context (E : Externals).

(** C6.  [operatePacket] keeps the size the packet had on entry
    ([orgSize]) and the size the handler left ([resultSize]).  An error
    reply is logged with the first [resultSize] bytes of its payload
    as the error text; any other reply is logged through [ActionMsg]
    on the packet with its size set back to [orgSize]; in both cases
    the log entry follows the handler's events and the packet is
    returned as the handler left it, with size [resultSize].  The only
    other exit is the panic of slicing an error payload shorter than
    [resultSize]. *)
Theorem operatePacket_size_snapshot (m : Machine) :
  let orgSize := Size (pkg m) in
  let umpKey := (clusterId E +:+ "_datanode_" +:+ GetOpMsg E (pkg m))%string in
  let h := afterHandler E m in
  let resultSize := Size (pkg h) in
  let logged := withSize orgSize (pkg h) in
  let out := operatePacket E m in
  if IsErrPack (pkg h) then
    if resultSize <=? len (Data (pkg h)) then
      let text := string_of_list_byte (firstn (Z.to_nat resultSize) (bufBytes (Data (pkg h)))) in
      let err := Errorf ("op(" +:+ GetOpMsg E logged +:+ ") error(" +:+ text +:+ ")") in
      fst out = Returned
      /\ pkg (snd out) = pkg h
      /\ Size (pkg (snd out)) = resultSize
      /\ trace (snd out)
         = trace h ++ [EvLog LvError ("action[operatePacket] " +:+ ErrorText E err);
                       EvUmpAfter umpKey (Some err)]
    else fst out = Panicked
  else
    fst out = Returned
    /\ pkg (snd out) = pkg h
    /\ Size (pkg (snd out)) = resultSize
    /\ trace (snd out)
       = trace h ++ [EvLog (logLevelOf (Opcode_ (pkg h)))
                       ("action[operatePacket] "
                          +:+ ActionMsg E logged (GetOpMsg E logged) (remoteAddr E)
                                (unixNano E (trace m ++ [EvUmpBefore umpKey])) None
                          +:+ ".");
                     EvUmpAfter umpKey None].
Proof.
  cbn zeta.
  assert (Hrun : operatePacket E m
                 = operateDeferred E (Size (pkg m))
                     (clusterId E +:+ "_datanode_" +:+ GetOpMsg E (pkg m))
                     (unixNano E (trace m ++ [EvUmpBefore
                               (clusterId E +:+ "_datanode_" +:+ GetOpMsg E (pkg m))]))
                     (afterHandler E m)).
  { unfold operatePacket, afterHandler, exec, bind, getPkg, getTrace, emit.
    cbn [fst snd trace pkg]. reflexivity. }
  rewrite Hrun. generalize (afterHandler E m) as h.
  generalize (Size (pkg m)) as orgSize.
  generalize (unixNano E (trace m ++ [EvUmpBefore
                (clusterId E +:+ "_datanode_" +:+ GetOpMsg E (pkg m))])) as start.
  generalize (clusterId E +:+ "_datanode_" +:+ GetOpMsg E (pkg m)) as umpKey.
  clear Hrun m. intros umpKey start orgSize h.
  unfold operateDeferred, sliceTo, IsErrPack. fields h. go.
  destruct ResultCode_0; go.
  - repeat split; try reflexivity. rewrite <- app_assoc. reflexivity.
  - destruct (Size0 <=? len Data0); go; [| reflexivity].
    repeat split; try reflexivity. rewrite <- app_assoc. reflexivity.
Qed.
End Dispatcher.

(** ** The stream-read loop *)

Section StreamLoop.
Context (E : Externals).

Lemma currReadSize_range need :
  is_uint32 need -> 0 < need ->
  currReadSizeOf E need = Z.min need (ReadBlockSize E)
  /\ 0 < currReadSizeOf E need <= need.
Proof.
  intros [Hlo Hhi] Hpos. unfold currReadSizeOf, uint32, Min, ReadBlockSize.
  destruct (need <=? Z.pos (readBlockSize E)) eqn:Hle.
  - apply Z.leb_le in Hle. rewrite Z.mod_small by lia. lia.
  - apply Z.leb_gt in Hle. rewrite Z.mod_small by lia. lia.
Qed.

(** One round, whatever the collaborators answer. *)
Lemma streamRound_shape need offset m :
  let r := streamRound E need offset m in
  exists ev,
    trace (snd r) = trace m ++ ev
    /\ FileID (pkg (snd r)) = FileID (pkg m)
    /\ RoundShape E (FileID (pkg m)) (nextBuf m) (currReadSizeOf E need) offset
         (match fst r with inl exit => Some exit | inr _ => None end)
         ev (nextBuf (snd r))
    /\ (forall next, fst r = inr next ->
          next = (uint32 (need - currReadSizeOf E need),
                  int64 (offset + int64 (currReadSizeOf E need)))).
Proof.
  cbn zeta. unfold streamRound. fold (currReadSizeOf E need).
  set (curr := currReadSizeOf E need). fields m.
  destruct (curr =? ReadBlockSize E) eqn:Hfull; go.
  - destruct (extentRead _ _ _ _ _) as [[crc bytes] [e|]] eqn:Hrd; go.
    + destruct (writeToConn _ _ _) as [e'|] eqn:Hwr; go.
      * eexists. split; [rewrite <- !app_assoc; reflexivity |].
        split; [reflexivity |]. split; [| discriminate].
        pose proof (round_read_failed E FileID0 nextBuf0 curr offset e) as R.
        unfold readEvents in R. rewrite Hfull in R.
        eapply (R _ (Some e')); reflexivity.
      * eexists. split; [rewrite <- !app_assoc; reflexivity |].
        split; [reflexivity |]. split; [| discriminate].
        pose proof (round_read_failed E FileID0 nextBuf0 curr offset e) as R.
        unfold readEvents in R. rewrite Hfull in R.
        eapply (R _ None EmptyString); reflexivity.
    + destruct (writeToConn _ _ _) as [e'|] eqn:Hwr; go.
      * eexists. split; [rewrite <- !app_assoc; reflexivity |].
        split; [reflexivity |]. split; [| discriminate].
        pose proof (round_write_failed E FileID0 nextBuf0 curr offset) as R.
        unfold readEvents in R. rewrite Hfull in R.
        eapply R; reflexivity.
      * eexists. split; [rewrite <- !app_assoc; reflexivity |].
        split; [reflexivity |]. split; [| intros next [= <-]; reflexivity].
        pose proof (round_sent E FileID0 nextBuf0 curr offset) as R.
        unfold readEvents in R. rewrite Hfull in R.
        eapply R; reflexivity.
  - destruct (extentRead _ _ _ _ _) as [[crc bytes] [e|]] eqn:Hrd; go.
    + destruct (writeToConn _ _ _) as [e'|] eqn:Hwr; go.
      * eexists. split; [rewrite <- !app_assoc; reflexivity |].
        split; [reflexivity |]. split; [| discriminate].
        pose proof (round_read_failed E FileID0 nextBuf0 curr offset e) as R.
        unfold readEvents in R. rewrite Hfull in R.
        eapply (R _ (Some e')); reflexivity.
      * eexists. split; [rewrite <- !app_assoc; reflexivity |].
        split; [reflexivity |]. split; [| discriminate].
        pose proof (round_read_failed E FileID0 nextBuf0 curr offset e) as R.
        unfold readEvents in R. rewrite Hfull in R.
        eapply (R _ None EmptyString); reflexivity.
    + destruct (writeToConn _ _ _) as [e'|] eqn:Hwr; go.
      * eexists. split; [rewrite <- !app_assoc; reflexivity |].
        split; [reflexivity |]. split; [| discriminate].
        pose proof (round_write_failed E FileID0 nextBuf0 curr offset) as R.
        unfold readEvents in R. rewrite Hfull in R.
        eapply R; reflexivity.
      * eexists. split; [rewrite <- !app_assoc; reflexivity |].
        split; [reflexivity |]. split; [| intros next [= <-]; reflexivity].
        pose proof (round_sent E FileID0 nextBuf0 curr offset) as R.
        unfold readEvents in R. rewrite Hfull in R.
        eapply R; reflexivity.
Qed.

(** The loop is a sequence of rounds, and the fuel it is given is
    enough: it never ends as [LoopOutOfFuel]. *)
Lemma streamLoop_rounds fuel : forall need offset m,
  is_uint32 need -> (Z.to_nat need < fuel)%nat ->
  let out := streamLoop E fuel need offset m in
  exists ev,
    trace (snd out) = trace m ++ ev
    /\ Rounds E (FileID (pkg m)) (nextBuf m) need offset ev
              (nextBuf (snd out)) (fst out).
Proof.
  induction fuel as [|fuel IH]; intros need offset m Hrange Hfuel; [lia |].
  cbn zeta. cbn [streamLoop].
  destruct (need <=? 0) eqn:Hzero.
  - apply Z.leb_le in Hzero. exists []. cbn [ret fst snd].
    split; [symmetry; apply app_nil_r |]. apply rounds_done. exact Hzero.
  - apply Z.leb_gt in Hzero.
    destruct (currReadSize_range need Hrange Hzero) as [_ Hcurr].
    destruct (streamRound_shape need offset m) as (ev & Htr & Hfid & Hshape & Hnext).
    unfold bind.
    destruct (streamRound E need offset m) as [[exit | [need' off']] m1];
      cbn [fst snd] in *.
    + exists ev. split; [exact Htr |]. apply rounds_stop; assumption.
    + specialize (Hnext _ eq_refl). injection Hnext as -> ->.
      assert (Hsmall : uint32 (need - currReadSizeOf E need)
                       = need - currReadSizeOf E need).
      { unfold uint32. apply Z.mod_small. unfold is_uint32 in Hrange. lia. }
      destruct (IH (uint32 (need - currReadSizeOf E need))
                   (int64 (offset + int64 (currReadSizeOf E need))) m1)
        as (ev' & Htr' & Hrounds).
      * rewrite Hsmall. unfold is_uint32 in *. lia.
      * rewrite Hsmall. lia.
      * exists (ev ++ ev'). split.
        -- rewrite Htr', Htr, app_assoc. reflexivity.
        -- rewrite Hfid in Hrounds.
           eapply rounds_next; eassumption.
Qed.

(** The loop always ends, and never for want of fuel. *)
Lemma rounds_exit fid n need off ev n' res :
  Rounds E fid n need off ev n' res -> loopExit res <> LoopOutOfFuel.
Proof.
  induction 1 as [n need off Hzero
                 | n need off exit ev n' Hpos Hshape
                 | n need off ev n' ev' n'' res Hpos Hshape Hrest IH].
  - discriminate.
  - inversion Hshape; subst; discriminate.
  - exact IH.
Qed.

Lemma streamRead_rounds m :
  is_uint32 (Size (pkg m)) ->
  let out := streamRead E m in
  exists ev,
    trace (snd out) = trace m ++ ev
    /\ newEvents m (exec (handleStreamRead E) m) = ev
    /\ Rounds E (FileID (pkg m)) (nextBuf m) (Size (pkg m)) (Offset (pkg m)) ev
              (nextBuf (snd out)) (fst out).
Proof.
  intros Hrange. cbn zeta.
  destruct (streamLoop_rounds (S (Z.to_nat (Size (pkg m)))) (Size (pkg m))
              (Offset (pkg m)) m Hrange) as (ev & Htr & Hrounds); [lia |].
  assert (Hrun : streamRead E m
                 = streamLoop E (S (Z.to_nat (Size (pkg m)))) (Size (pkg m))
                     (Offset (pkg m)) m) by reflexivity.
  assert (Hexec : exec (handleStreamRead E) m = snd (streamRead E m)) by reflexivity.
  rewrite Hexec, Hrun. exists ev. split; [exact Htr |].
  split; [apply newEvents_app; exact Htr | exact Hrounds].
Qed.

Lemma streamRead_total m :
  is_uint32 (Size (pkg m)) -> loopExit (fst (streamRead E m)) <> LoopOutOfFuel.
Proof.
  intros Hrange. destruct (streamRead_rounds m Hrange) as (ev & _ & _ & Hrounds).
  eapply rounds_exit. exact Hrounds.
Qed.
End StreamLoop.

(** ** Arithmetic of the chunking *)

Section Chunking.
Variable C : Z.
Hypothesis C_pos : 0 < C.

Lemma chunkSizes_fuel f1 : forall f2 r,
  (Z.to_nat r < f1)%nat -> (Z.to_nat r < f2)%nat ->
  chunkSizes C f1 r = chunkSizes C f2 r.
Proof.
  induction f1 as [|f1 IH]; intros f2 r H1 H2; [lia |].
  destruct f2 as [|f2]; [lia |]. cbn [chunkSizes].
  destruct (r <=? 0) eqn:Hr; [reflexivity |]. apply Z.leb_gt in Hr.
  cbn zeta. f_equal. apply IH; lia.
Qed.

Lemma chunks_zero r : r <= 0 -> chunks C r = [].
Proof.
  intros Hr. unfold chunks. cbn [chunkSizes].
  apply Z.leb_le in Hr. rewrite Hr. reflexivity.
Qed.

Lemma chunks_step r :
  0 < r -> chunks C r = Z.min r C :: chunks C (r - Z.min r C).
Proof.
  intros Hr. unfold chunks at 1. cbn [chunkSizes].
  apply Z.leb_gt in Hr. rewrite Hr. cbn zeta. f_equal.
  apply Z.leb_gt in Hr. apply chunkSizes_fuel; lia.
Qed.

(** Induction along the chunks of [r]. *)
Lemma chunks_ind (P : Z -> list Z -> Prop) :
  (forall r, r <= 0 -> P r []) ->
  (forall r, 0 < r -> P (r - Z.min r C) (chunks C (r - Z.min r C)) ->
             P r (Z.min r C :: chunks C (r - Z.min r C))) ->
  forall r, P r (chunks C r).
Proof.
  intros Hzero Hstep r.
  assert (Hgen : forall n r, (Z.to_nat r < n)%nat -> P r (chunks C r)).
  { clear r. induction n as [|n IH]; intros r Hn; [lia |].
    destruct (Z_le_gt_dec r 0) as [Hle | Hgt].
    - rewrite chunks_zero by exact Hle. apply Hzero. exact Hle.
    - rewrite chunks_step by lia. apply Hstep; [lia |]. apply IH. lia. }
  apply (Hgen (S (Z.to_nat r))). lia.
Qed.

Lemma chunks_sum r : 0 <= r -> sumZ (chunks C r) = r.
Proof.
  pattern r, (chunks C r). apply chunks_ind; clear r.
  - intros r Hr Hr'. cbn. lia.
  - intros r Hr IH _. cbn [sumZ fold_right]. fold (sumZ (chunks C (r - Z.min r C))).
    rewrite IH by lia. lia.
Qed.

Lemma chunks_bounds r : Forall (fun c => 0 < c <= C) (chunks C r).
Proof.
  pattern r, (chunks C r). apply chunks_ind; clear r.
  - intros. constructor.
  - intros r Hr IH. constructor; [lia | exact IH].
Qed.

Lemma ceilDiv_small r : 0 < r <= C -> ceilDiv r C = 1.
Proof.
  intros Hr. unfold ceilDiv.
  replace (r + C - 1) with (r - 1 + 1 * C) by lia.
  rewrite Z.div_add by lia. rewrite Z.div_small by lia. reflexivity.
Qed.

Lemma ceilDiv_step r : C < r -> ceilDiv r C = ceilDiv (r - C) C + 1.
Proof.
  intros Hr. unfold ceilDiv.
  replace (r + C - 1) with (r - C + C - 1 + 1 * C) by lia.
  rewrite Z.div_add by lia. reflexivity.
Qed.

Lemma ceilDiv_nonneg r : 0 <= r -> 0 <= ceilDiv r C.
Proof. intros Hr. unfold ceilDiv. apply Z.div_pos; lia. Qed.

Lemma chunks_length r :
  0 <= r -> List.length (chunks C r) = Z.to_nat (ceilDiv r C).
Proof.
  pattern r, (chunks C r). apply chunks_ind; clear r.
  - intros r Hr Hr'. assert (r = 0) as -> by lia.
    unfold ceilDiv. rewrite Z.div_small by lia. reflexivity.
  - intros r Hr IH _. cbn [List.length]. rewrite IH by lia.
    destruct (Z_le_gt_dec r C) as [Hle | Hgt].
    + rewrite Z.min_l by lia. rewrite Z.sub_diag.
      rewrite (ceilDiv_small r) by lia.
      unfold ceilDiv. rewrite Z.div_small by lia. reflexivity.
    + rewrite Z.min_r by lia. rewrite (ceilDiv_step r) by lia.
      pose proof (ceilDiv_nonneg (r - C)). lia.
Qed.

Lemma chunks_nth r : forall i,
  (i < List.length (chunks C r))%nat ->
  nth i (chunks C r) 0 = Z.min (r - sumZ (firstn i (chunks C r))) C.
Proof.
  pattern r, (chunks C r). apply chunks_ind; clear r.
  - intros r Hr i Hi. cbn in Hi. lia.
  - intros r Hr IH [|i] Hi.
    + cbn. f_equal. lia.
    + cbn [nth firstn sumZ fold_right List.length] in *.
      fold (sumZ (firstn i (chunks C (r - Z.min r C)))).
      rewrite IH by lia. f_equal. lia.
Qed.

Lemma chunks_full r : forall i,
  (S i < List.length (chunks C r))%nat -> nth i (chunks C r) 0 = C.
Proof.
  pattern r, (chunks C r). apply chunks_ind; clear r.
  - intros r Hr i Hi. cbn in Hi. lia.
  - intros r Hr IH i Hi. cbn [List.length] in Hi.
    destruct (Z_le_gt_dec r C) as [Hle | Hgt].
    + rewrite Z.min_l in Hi by lia. rewrite Z.sub_diag in Hi.
      rewrite chunks_zero in Hi by lia. cbn in Hi. lia.
    + destruct i as [|i]; cbn [nth]; [lia |]. apply IH. lia.
Qed.

Lemma offsetsFrom_length off sizes :
  List.length (offsetsFrom off sizes) = List.length sizes.
Proof.
  revert off. induction sizes as [|c rest IH]; intros off; cbn; [reflexivity |].
  now rewrite IH.
Qed.

Lemma offsetsFrom_nth sizes : forall off i,
  (i < List.length sizes)%nat ->
  nth i (offsetsFrom off sizes) 0 = off + sumZ (firstn i sizes).
Proof.
  induction sizes as [|c rest IH]; intros off i Hi; [cbn in Hi; lia |].
  destruct i as [|i]; cbn [offsetsFrom nth firstn sumZ fold_right]; [lia |].
  fold (sumZ (firstn i rest)). cbn [List.length] in Hi.
  rewrite IH by lia. lia.
Qed.

Lemma sum_firstn_lt sizes : Forall (fun c => 0 < c <= C) sizes ->
  forall i j, (i < j <= List.length sizes)%nat ->
  sumZ (firstn i sizes) < sumZ (firstn j sizes).
Proof.
  induction 1 as [|c rest Hc Hrest IH]; intros i j Hij; [cbn in Hij; lia |].
  cbn [List.length] in Hij.
  destruct j as [|j]; [lia |]. destruct i as [|i].
  - cbn [firstn sumZ fold_right]. fold (sumZ (firstn j rest)).
    assert (0 <= sumZ (firstn j rest)).
    { clear -Hrest. revert j. induction Hrest as [|d rest' Hd _ IH']; intros [|j];
        cbn; try lia.
      fold (sumZ (firstn j rest')). specialize (IH' j). lia. }
    lia.
  - cbn [firstn sumZ fold_right].
    fold (sumZ (firstn i rest)). fold (sumZ (firstn j rest)).
    specialize (IH i j). lia.
Qed.
End Chunking.

(** ** Stream-read chunking *)

Section StreamChunks.
Context (E : Externals).

Lemma int64_small z : is_int64 z -> int64 z = z.
Proof.
  unfold is_int64, int64. intros Hz.
  change (2 ^ 64) with (2 ^ 63 + 2 ^ 63). rewrite Z.mod_small; lia.
Qed.

Lemma int64_range z : is_int64 (int64 z).
Proof.
  unfold is_int64, int64.
  pose proof (Z.mod_pos_bound (z + 2 ^ 63) (2 ^ 64) ltac:(lia)). lia.
Qed.

Lemma uint32_range z : is_uint32 (uint32 z).
Proof. unfold is_uint32, uint32. apply Z.mod_pos_bound. lia. Qed.

Lemma readEvents_frames fid n curr off res :
  frameSizes (readEvents E fid n curr off res) = []
  /\ readCalls (readEvents E fid n curr off res) = [(off, int64 curr)].
Proof. unfold readEvents. destruct (curr =? ReadBlockSize E); split; reflexivity. Qed.

Lemma readEvents_failed fid n curr off e rest :
  ~ Forall (fun ev => succeeded ev = true)
           (readEvents E fid n curr off (Some e) ++ rest).
Proof.
  intros H. rewrite List.Forall_forall in H.
  specialize (H (EvExtentRead fid off (int64 curr) n (Some e))).
  cbn in H. assert (false = true) as Hf; [| discriminate Hf].
  apply H. apply in_or_app. left. unfold readEvents.
  apply in_or_app. right. right. left. reflexivity.
Qed.

(** A loop whose reads and writes all succeed sends the chunks of
    [need], read at the offsets that follow [offset]. *)
Lemma rounds_chunks fid n need off ev n' res :
  Rounds E fid n need off ev n' res ->
  is_uint32 need -> is_int64 off -> off + need <= 2 ^ 63 ->
  Forall (fun e => succeeded e = true) ev ->
  loopExit res = LoopDone
  /\ finalNeedReplySize res = 0
  /\ frameSizes ev = chunks (ReadBlockSize E) need
  /\ readCalls ev
     = combine (offsetsFrom off (chunks (ReadBlockSize E) need))
               (chunks (ReadBlockSize E) need).
Proof.
  assert (HC : 0 < ReadBlockSize E) by (unfold ReadBlockSize; lia).
  induction 1 as [n need off Hzero
                 | n need off exit ev n' Hpos Hshape
                 | n need off ev n' ev' n'' res Hpos Hshape Hrest IH];
    intros Hneed Hoff Hfit Hok.
  - unfold is_uint32 in Hneed. rewrite chunks_zero by exact Hzero.
    cbn. repeat split; try reflexivity. lia.
  - exfalso. inversion Hshape; subst.
    + eapply readEvents_failed; eassumption.
    + apply Forall_app in Hok. destruct Hok as [_ Hok].
      inversion Hok as [| ? ? Hw _]. discriminate Hw.
  - destruct (currReadSize_range E need Hneed Hpos) as [Hcurr Hbound].
    set (curr := currReadSizeOf E need) in *.
    assert (Hcurr64 : int64 curr = curr).
    { apply int64_small. unfold is_int64, is_uint32 in *. lia. }
    assert (Hnext : uint32 (need - curr) = need - curr).
    { unfold uint32. apply Z.mod_small. unfold is_uint32 in Hneed. lia. }
    apply Forall_app in Hok. destruct Hok as [Hok1 Hok2].
    rewrite Hcurr64, Hnext in *.
    destruct IH as (Hexit & Hfinal & Hframes & Hreads); try assumption.
    + unfold is_uint32 in *. lia.
    + apply int64_range.
    + destruct (Z.eq_dec (need - curr) 0) as [Hlast | Hmore].
      * rewrite Hlast. pose proof (int64_range (off + curr)) as Hr.
        unfold is_int64 in Hr. lia.
      * rewrite int64_small by (unfold is_int64 in *; lia). lia.
    + split; [exact Hexit |]. split; [exact Hfinal |].
      rewrite (chunks_step (ReadBlockSize E) HC need Hpos), <- Hcurr.
      inversion Hshape as [| | p Hid Hsize Herr Heq]; subst ev.
      unfold frameSizes, readCalls in *. rewrite !flat_map_app.
      fold (frameSizes (readEvents E fid n curr off None)).
      fold (readCalls (readEvents E fid n curr off None)).
      destruct (readEvents_frames fid n curr off None) as [-> ->].
      rewrite Hcurr64. cbn [flat_map app offsetsFrom combine].
      rewrite Hsize.
      assert (Htail : forall t, t = (if curr =? ReadBlockSize E
                                     then [EvBuffersPut n] else []) ->
                flat_map (fun e => match e with
                                   | EvWriteToConn p0 _ => [Size p0]
                                   | _ => []
                                   end) t = []
                /\ flat_map (fun e => match e with
                                      | EvExtentRead _ o sz _ _ => [(o, sz)]
                                      | _ => []
                                      end) t = []).
      { intros t ->. destruct (curr =? ReadBlockSize E); split; reflexivity. }
      destruct (Htail _ eq_refl) as [-> ->]. cbn [app].
      rewrite Hframes, Hreads. split; [reflexivity |]. f_equal.
      destruct (Z.eq_dec (need - curr) 0) as [Hlast | Hmore].
      * rewrite Hlast, chunks_zero by lia. reflexivity.
      * rewrite int64_small by (unfold is_int64 in *; lia). reflexivity.
Qed.
End StreamChunks.

Lemma map_fst_combine {A B} (l1 : list A) : forall (l2 : list B),
  List.length l1 = List.length l2 -> map fst (combine l1 l2) = l1.
Proof.
  induction l1 as [|a l1 IH]; intros [|b l2] Hlen; cbn in *; try congruence.
  f_equal. apply IH. lia.
Qed.

Lemma map_snd_combine {A B} (l1 : list A) : forall (l2 : list B),
  List.length l1 = List.length l2 -> map snd (combine l1 l2) = l2.
Proof.
  induction l1 as [|a l1 IH]; intros [|b l2] Hlen; cbn in *; try congruence.
  f_equal. apply IH. lia.
Qed.

Section StreamReadChunking.
Context (E : Externals).

(** C3, as amended.  For a StreamRead of [S > 0] bytes whose byte
    range [offset, offset + S) lies within the signed 64-bit offsets,
    and on which every store read and every connection write
    succeeds: the loop ends with nothing left to send, after
    [ceil(S/C)] frames; each frame carries the smaller of what remains
    and [C], so every frame but the last has [C] bytes; the sizes add
    up to [S]; every frame is read at the request's offset plus the
    sizes of the frames before it, and these offsets grow strictly. *)
Theorem stream_read_chunking (m : Machine) :
  let S := Size (pkg m) in
  let C := ReadBlockSize E in
  let off := Offset (pkg m) in
  let out := streamRead E m in
  let ev := newEvents m (exec (handleStreamRead E) m) in
  let sizes := frameSizes ev in
  let offsets := map fst (readCalls ev) in
  is_uint32 S -> is_int64 off -> 0 < S -> off + S <= 2 ^ 63 ->
  Forall (fun e => succeeded e = true) ev ->
  loopExit (fst out) = LoopDone
  /\ finalNeedReplySize (fst out) = 0
  /\ List.length sizes = Z.to_nat (ceilDiv S C)
  /\ (forall i, (i < List.length sizes)%nat ->
        nth i sizes 0 = Z.min (S - sumZ (firstn i sizes)) C)
  /\ (forall i, (Datatypes.S i < List.length sizes)%nat -> nth i sizes 0 = C)
  /\ Forall (fun c => 0 < c <= C) sizes
  /\ sumZ sizes = S
  /\ map snd (readCalls ev) = sizes
  /\ (forall i, (i < List.length sizes)%nat ->
        nth i offsets 0 = off + sumZ (firstn i sizes))
  /\ (forall i j, (i < j < List.length sizes)%nat ->
        nth i offsets 0 < nth j offsets 0).
Proof.
  cbn zeta. intros HS Hoff Hpos Hfit Hok.
  assert (HC : 0 < ReadBlockSize E) by (unfold ReadBlockSize; lia).
  destruct (streamRead_rounds E m HS) as (ev & _ & Hev & Hrounds).
  rewrite Hev in *.
  destruct (rounds_chunks E _ _ _ _ _ _ _ Hrounds HS Hoff Hfit Hok)
    as (Hexit & Hfinal & Hframes & Hreads).
  set (sizes := chunks (ReadBlockSize E) (Size (pkg m))) in *.
  assert (Hlen : List.length (offsetsFrom (Offset (pkg m)) sizes) = List.length sizes)
    by apply offsetsFrom_length.
  rewrite Hframes, Hreads, (map_fst_combine _ _ Hlen), (map_snd_combine _ _ Hlen).
  split; [exact Hexit |]. split; [exact Hfinal |].
  split; [apply chunks_length; lia |].
  split; [apply chunks_nth; exact HC |].
  split; [apply chunks_full; exact HC |].
  split; [apply chunks_bounds; exact HC |].
  split; [apply chunks_sum; lia |].
  split; [reflexivity |].
  split; [intros i Hi; apply offsetsFrom_nth; exact Hi |].
  intros i j Hij. rewrite !offsetsFrom_nth by lia.
  pose proof (sum_firstn_lt (ReadBlockSize E) sizes
                (chunks_bounds _ HC _) i j ltac:(lia)). lia.
Qed.

(** The loop ends in the ordinary way exactly when nothing is left
    to send. *)
Lemma rounds_done_iff fid n need off ev n' res :
  Rounds E fid n need off ev n' res -> is_uint32 need ->
  (loopExit res = LoopDone <-> finalNeedReplySize res = 0).
Proof.
  induction 1 as [n need off Hzero
                 | n need off exit ev n' Hpos Hshape
                 | n need off ev n' ev' n'' res Hpos Hshape Hrest IH];
    intros Hneed.
  - unfold is_uint32 in Hneed. cbn. split; intros _; [lia | reflexivity].
  - cbn. inversion Hshape; subst; split; intros H; try discriminate H; lia.
  - apply IH. apply uint32_range.
Qed.
End StreamReadChunking.

(** C3 as stated fails when the byte range runs past the largest signed
    64-bit offset: every read and write of this run succeeds, yet the
    second frame is read at the offset the addition wraps to. *)
Lemma stream_offsets_counterexample :
  let m := Sample.machine
             (Sample.packet OpStreamRead ExtentStoreMode (2 ^ 63 - 4) 8 [])
             (Sample.partition ReadWrite 10) in
  forallb succeeded (newEvents m (exec (handleStreamRead Sample.calm) m)) = true
  /\ ~ offsetsAdvance Sample.calm m.
Proof.
  cbn zeta. split; [vm_compute; reflexivity |].
  intros H. specialize (H 1%nat).
  assert (Hlen : (1 < 2)%nat) by lia.
  vm_compute in H. specialize (H Hlen). discriminate H.
Qed.

(** ** The life of the buffers *)

Section BufferLife.
Context (E : Externals).

Lemma life_app id t1 t2 : life id (t1 ++ t2) = life id t1 ++ life id t2.
Proof. unfold life. apply flat_map_app. Qed.

Lemma settled_stream C l : SettledLife C l -> StreamLife C l.
Proof. intros [| c Hc |]; constructor; assumption. Qed.

Lemma round_life fid n curr off exit ev n' :
  RoundShape E fid n curr off exit ev n' ->
  (n < n')%nat
  /\ forall id,
       ((id < n \/ n' <= id)%nat -> life id ev = [])
       /\ StreamLife (ReadBlockSize E) (life id ev)
       /\ (exit = None -> SettledLife (ReadBlockSize E) (life id ev)).
Proof.
  intros Hshape. inversion Hshape as [e p w text Hid Herr
                                     | p e text Hid Hsize Herr
                                     | p Hid Hsize Herr]; subst exit ev n';
    (split; [lia |]); intros id; unfold readEvents, life;
    try (destruct w as [e'|]);
    destruct (Z.eqb_spec curr (ReadBlockSize E)) as [Hfull | Hfull];
    cbn [isNone flat_map stageOf app]; rewrite ?Hid, ?Hsize, ?Hfull;
    destruct (Nat.eqb_spec n id); destruct (Nat.eqb_spec (S n) id);
    try lia; cbn [app];
    (split; [intros; try reflexivity; lia |]);
    (split; [try (constructor; congruence) | try discriminate]);
    try (intros _; constructor; congruence).
Qed.

Lemma rounds_life fid n need off ev n' res :
  Rounds E fid n need off ev n' res ->
  (n <= n')%nat
  /\ forall id,
       ((id < n \/ n' <= id)%nat -> life id ev = [])
       /\ StreamLife (ReadBlockSize E) (life id ev)
       /\ (loopExit res = LoopDone -> SettledLife (ReadBlockSize E) (life id ev)).
Proof.
  induction 1 as [n need off Hzero
                 | n need off exit ev n' Hpos Hshape
                 | n need off ev n' ev' n'' res Hpos Hshape Hrest IH].
  - split; [lia |]. intros id. cbn. repeat split; constructor.
  - destruct (round_life _ _ _ _ _ _ _ Hshape) as [Hn Hlife].
    split; [lia |]. intros id. destruct (Hlife id) as (Hout & Hstream & _).
    split; [exact Hout |]. split; [exact Hstream |].
    cbn. intros ->. inversion Hshape.
  - destruct (round_life _ _ _ _ _ _ _ Hshape) as [Hn Hlife].
    destruct IH as [Hn' Hrestlife].
    split; [lia |]. intros id. rewrite life_app.
    destruct (Hlife id) as (Hout & _ & Hsettled).
    destruct (Hrestlife id) as (Hout' & Hstream' & Hsettled').
    destruct (Nat.lt_ge_cases id n') as [Hlt | Hge].
    + rewrite (Hout' (or_introl Hlt)), app_nil_r.
      split; [intros [H | H]; [apply Hout; left; exact H | lia] |].
      split; [apply settled_stream |]; auto.
    + rewrite (Hout (or_intror Hge)). cbn [app].
      split; [intros [H | H]; apply Hout'; [lia | right; exact H] |].
      split; assumption.
Qed.
End BufferLife.

Section BufferPool.
Context (E : Externals).

Lemma settled_putBack C l :
  SettledLife C l -> existsb isCheckout l = true -> putBacks l = 1%nat.
Proof.
  intros [| c Hc |] H; unfold putBacks; cbn in *;
    try discriminate H; reflexivity.
Qed.

Lemma stream_putBack C l : StreamLife C l -> (putBacks l <= 1)%nat.
Proof. intros []; unfold putBacks; cbn; lia. Qed.

Lemma write_life m : passesAdmission m ->
  StoreMode_ (pkg m) = ExtentStoreMode ->
  let ev := newEvents m (exec (handleWrite E) m) in
  WriteLife (BlockSize E) (Size (pkg m)) (life (bufId (Data (pkg m))) ev)
  /\ forall id, id <> bufId (Data (pkg m)) -> life id ev = [].
Proof.
  intros Hadm Hmode. cbn zeta.
  destruct (write_trace E m Hadm) as (ev & Htr & Hev).
  rewrite (newEvents_app _ _ _ Htr). rewrite Hmode in Hev.
  destruct Hev as (res & ->). unfold life. cbn [flat_map stageOf app]. split.
  - rewrite Nat.eqb_refl.
    destruct res as [e|]; cbn [isNone andb]; [constructor |].
    destruct (isOpWrite (Opcode_ (pkg m))); cbn [andb]; [| constructor].
    destruct (Z.eqb_spec (Size (pkg m)) (BlockSize E)) as [Hfull | Hpart];
      cbn [flat_map stageOf app]; [| constructor].
    rewrite Nat.eqb_refl. constructor. exact Hfull.
  - intros id Hid.
    destruct (Nat.eqb_spec (bufId (Data (pkg m))) id) as [Heq | _]; [congruence |].
    destruct (_ && _); cbn [flat_map stageOf app]; [| reflexivity].
    destruct (Nat.eqb_spec (bufId (Data (pkg m))) id) as [Heq | _]; [congruence |].
    reflexivity.
Qed.

(** C4, as amended.  In a stream read every buffer has one of the
    lives of [StreamLife]: a buffer is checked out of the pool only
    for a frame of one full block, a partial-size buffer is freshly
    allocated and never meets the pool, and a checked-out buffer goes
    back at most once and only after its frame has been written to the
    connection; when the loop ends with every read and write
    successful, every checked-out buffer has gone back exactly once.
    In a Write on an Extent partition the payload buffer goes back at
    most once, only after the store write has succeeded and only when
    the write is one full block. *)
Theorem buffer_pool_pairing (m : Machine) :
  (is_uint32 (Size (pkg m)) ->
   let ev := newEvents m (exec (handleStreamRead E) m) in
   (forall id, StreamLife (ReadBlockSize E) (life id ev)
               /\ (putBacks (life id ev) <= 1)%nat)
   /\ (loopExit (fst (streamRead E m)) = LoopDone ->
       (forall id, SettledLife (ReadBlockSize E) (life id ev))
       /\ everyCheckoutPutBack ev))
  /\ (passesAdmission m -> StoreMode_ (pkg m) = ExtentStoreMode ->
      let ev := newEvents m (exec (handleWrite E) m) in
      WriteLife (BlockSize E) (Size (pkg m)) (life (bufId (Data (pkg m))) ev)
      /\ forall id, id <> bufId (Data (pkg m)) -> life id ev = []).
Proof.
  split.
  - intros Hsize. cbn zeta.
    destruct (streamRead_rounds E m Hsize) as (ev & _ & -> & Hrounds).
    destruct (rounds_life E _ _ _ _ _ _ _ Hrounds) as [_ Hlife].
    split.
    + intros id. destruct (Hlife id) as (_ & Hstream & _).
      split; [exact Hstream | eapply stream_putBack; exact Hstream].
    + intros Hdone. split.
      * intros id. apply (Hlife id). exact Hdone.
      * intros id Hout. eapply settled_putBack; [| exact Hout].
        apply (Hlife id). exact Hdone.
  - apply write_life.
Qed.
End BufferPool.

(** C4 as stated fails on the error paths: when the store read of a
    full block fails, the buffer checked out for it is not returned. *)
Lemma buffer_pool_counterexample :
  let m := Sample.machine (Sample.packet OpStreamRead ExtentStoreMode 0 4 [])
                          (Sample.partition ReadWrite 10) in
  ~ everyCheckoutPutBack (newEvents m (exec (handleStreamRead Sample.failingStore) m)).
Proof.
  cbn zeta. intros H. specialize (H 1%nat).
  vm_compute in H. specialize (H eq_refl). discriminate H.
Qed.

(** ** A failed transmission *)

Section FailedTransmission.
Context (E : Externals).

Lemma afterFailedWrite_app t1 t2 :
  afterFailedWrite (t1 ++ t2)
  = match afterFailedWrite t1 with
    | Some (p, rest) => Some (p, rest ++ t2)
    | None => afterFailedWrite t2
    end.
Proof.
  induction t1 as [|e t1 IH]; [reflexivity |].
  destruct e; cbn [app afterFailedWrite]; try exact IH.
  destruct res; [reflexivity | exact IH].
Qed.

Lemma readEvents_no_write fid n curr off res :
  afterFailedWrite (readEvents E fid n curr off res) = None.
Proof. unfold readEvents. destruct (curr =? ReadBlockSize E); reflexivity. Qed.

(** What follows the first failed connection write of a stream read:
    the failure is logged and nothing else is sent; the connection is
    closed when the frame was a data frame, and left open when it was
    the error frame that reports a failed read. *)
Lemma rounds_failed_write fid n need off ev n' res :
  Rounds E fid n need off ev n' res ->
  match afterFailedWrite ev with
  | None => True
  | Some (p, rest) =>
      exists text,
        rest = EvLog LvError text :: (if IsErrPack p then [] else [EvConnClose])
  end.
Proof.
  induction 1 as [n need off Hzero
                 | n need off exit ev n' Hpos Hshape
                 | n need off ev n' ev' n'' res Hpos Hshape Hrest IH].
  - exact I.
  - inversion Hshape as [e p w text Hid Herr | p e text Hid Hsize Herr |];
      subst; rewrite afterFailedWrite_app, readEvents_no_write.
    + destruct w as [e'|]; cbn; [| exact I]. rewrite Herr. exists text. reflexivity.
    + cbn. rewrite Herr. exists text. reflexivity.
  - inversion Hshape as [| | p Hid Hsize Herr]; subst.
    rewrite !afterFailedWrite_app, readEvents_no_write.
    cbn [afterFailedWrite].
    destruct (currReadSizeOf E need =? ReadBlockSize E); cbn [afterFailedWrite app];
      exact IH.
Qed.
End FailedTransmission.

(** C5 fails on the code when the frame that cannot be sent is the
    error frame of a failed read: the failure is logged and the handler
    stops, but the connection is not closed. *)
Theorem error_frame_failure_leaves_connection_open :
  let m := Sample.machine (Sample.packet OpStreamRead ExtentStoreMode 0 4 [])
                          (Sample.partition ReadWrite 10) in
  let ev := newEvents m (exec (handleStreamRead Sample.brokenPipe) m) in
  exists p text,
    afterFailedWrite ev = Some (p, [EvLog LvError text])
    /\ IsErrPack p = true
    /\ existsb (fun e => match e with EvConnClose => true | _ => false end) ev = false.
Proof.
  cbn zeta. eexists. eexists. vm_compute. repeat split; reflexivity.
Qed.

(** ** Concrete runs *)

(** A Create and a Write on a ReadOnly partition. *)
Lemma admission_gating_witness :
  let m := Sample.machine (Sample.packet OpWrite ExtentStoreMode 0 4 [x00; x00; x00; x00])
                          (Sample.partition ReadOnly 10) in
  Status (dataPartition m) = ReadOnly
  /\ rejects Sample.calm (handleCreateFile Sample.calm) LogCreateFile "CreateFile Error"
             ErrorPartitionReadOnly m
  /\ rejects Sample.calm (handleWrite Sample.calm) LogWrite "Write Error"
             ErrorPartitionReadOnly m.
Proof.
  intros m. split; [reflexivity |].
  apply (proj1 (admission_gating Sample.calm m)). reflexivity.
Defined.

(** A Write of one full block that passes admission on an Extent
    partition. *)
Lemma write_outcome_recording_witness :
  let m := Sample.machine (Sample.packet OpWrite ExtentStoreMode 0 4 [x00; x00; x00; x00])
                          (Sample.partition ReadWrite 10) in
  passesAdmission m
  /\ exists res,
       storeWriteResults (newEvents m (exec (handleWrite Sample.calm) m)) = [res]
       /\ diskErrRecords (newEvents m (exec (handleWrite Sample.calm) m))
          = [EvAddDiskErrs (PartitionID (pkg m)) res WriteFlag].
Proof.
  intros m.
  assert (Hadm : passesAdmission m) by (split; [discriminate | reflexivity]).
  split; [exact Hadm |].
  apply (proj1 (write_outcome_recording Sample.calm m) Hadm). right. reflexivity.
Defined.

(** A Write and a MarkDelete with store mode 9. *)
Lemma store_mode_fall_through_witness :
  let m := Sample.machine (Sample.packet OpWrite (OtherStoreMode 9) 0 4 [])
                          (Sample.partition ReadWrite 10) in
  StoreMode_ (pkg m) = OtherStoreMode 9
  /\ passesAdmission m
  /\ exec (handleWrite Sample.calm) m = okReply m
  /\ newEvents m (exec (handleWrite Sample.calm) m) = []
  /\ exec (handleMarkDelete Sample.calm) m = okReply m.
Proof.
  intros m.
  assert (Hadm : passesAdmission m) by (split; [discriminate | reflexivity]).
  destruct (store_mode_fall_through Sample.calm m 9 eq_refl) as (Hw & Hd & _).
  destruct (Hw Hadm) as [Hok Hquiet].
  split; [reflexivity |]. split; [exact Hadm |].
  split; [exact Hok |]. split; [exact Hquiet | exact Hd].
Defined.

(** A CreateFile with an eight-byte payload on an Extent partition. *)
Lemma createFile_routing_witness :
  let m := Sample.machine
             (Sample.packet OpCreateFile ExtentStoreMode 0 8
                            [x00; x00; x00; x00; x00; x00; x01; x02])
             (Sample.partition ReadWrite 10) in
  passesAdmission m
  /\ newEvents m (exec (handleCreateFile Sample.calm) m) = [EvExtentCreate 7 258 false].
Proof.
  intros m.
  assert (Hadm : passesAdmission m) by (split; [discriminate | reflexivity]).
  split; [exact Hadm |].
  apply (proj2 (createFile_routing Sample.calm m Hadm)). reflexivity.
Defined.

(** A repair read against a store whose last object id is 19, for
    objects up to 20. *)
Lemma repair_read_gate_witness :
  let m := Sample.machine (Sample.packet OpBlobFileRepairRead BlobStoreMode 0 0 [])
                          (Sample.partition ReadWrite 10) in
  unmarshalRepairTask Sample.behind (bufBytes (Data (pkg m))) = inl Sample.repair0
  /\ IsErrPack (pkg (exec (handleBlobFileRepairRead Sample.behind) m)) = true
  /\ transfers (newEvents m (exec (handleBlobFileRepairRead Sample.behind) m)) = [].
Proof.
  intros m. split; [reflexivity |].
  destruct (repair_read_gate Sample.behind m Sample.repair0 eq_refl) as [Hlow _].
  destruct (Hlow ltac:(vm_compute; reflexivity)) as (Herr & Hnone & _).
  split; [exact Herr | exact Hnone].
Defined.

(** Deleting partition 9 on a node that holds no partition. *)
Lemma delete_partition_unconditional_witness :
  let m := Sample.machine (Sample.packet OpDeleteDataPartition ExtentStoreMode 0 0 [])
                          (Sample.partition ReadWrite 10) in
  partitions m !! 9 = None
  /\ ResultCode_ (pkg (exec (handleDeleteDataPartition Sample.calm) m)) = OpOk
  /\ partitions (exec (handleDeleteDataPartition Sample.calm) m) = partitions m.
Proof.
  intros m. split; [reflexivity |].
  destruct (delete_partition_unconditional Sample.calm m) as [Hok Hdel].
  split; [exact Hok |].
  destruct (Hdel eq_refl eq_refl) as (_ & Hsame & _).
  apply Hsame. reflexivity.
Defined.

(** A stream read of 14 bytes at offset 100 with blocks of 4 bytes. *)
Lemma stream_read_chunking_witness :
  let m := Sample.machine (Sample.packet OpStreamRead ExtentStoreMode 100 14 [])
                          (Sample.partition ReadWrite 10) in
  let ev := newEvents m (exec (handleStreamRead Sample.calm) m) in
  (is_uint32 14 /\ is_int64 100 /\ 0 < 14 /\ 100 + 14 <= 2 ^ 63
   /\ Forall (fun e => succeeded e = true) ev)
  /\ loopExit (fst (streamRead Sample.calm m)) = LoopDone
  /\ finalNeedReplySize (fst (streamRead Sample.calm m)) = 0
  /\ List.length (frameSizes ev) = Z.to_nat (ceilDiv 14 4)
  /\ sumZ (frameSizes ev) = 14.
Proof.
  intros m ev.
  assert (Hok : Forall (fun e => succeeded e = true) ev)
    by (vm_compute; repeat constructor).
  assert (H32 : is_uint32 14) by (unfold is_uint32; lia).
  assert (H64 : is_int64 100) by (unfold is_int64; lia).
  split; [repeat split; try lia; exact Hok |].
  destruct (stream_read_chunking Sample.calm m H32 H64 ltac:(reflexivity)
              ltac:(cbn; lia) Hok)
    as (Hexit & Hfinal & Hlen & _ & _ & _ & Hsum & _).
  split; [exact Hexit |]. split; [exact Hfinal |]. split; [exact Hlen | exact Hsum].
Defined.

(** The same stream read, seen from the pool. *)
Lemma buffer_pool_pairing_witness :
  let m := Sample.machine (Sample.packet OpStreamRead ExtentStoreMode 100 14 [])
                          (Sample.partition ReadWrite 10) in
  let ev := newEvents m (exec (handleStreamRead Sample.calm) m) in
  is_uint32 (Size (pkg m))
  /\ loopExit (fst (streamRead Sample.calm m)) = LoopDone
  /\ everyCheckoutPutBack ev.
Proof.
  intros m ev.
  assert (H32 : is_uint32 (Size (pkg m))) by (unfold is_uint32; cbn; lia).
  split; [exact H32 |]. split; [vm_compute; reflexivity |].
  destruct (buffer_pool_pairing Sample.calm m) as [Hstream _].
  destruct (Hstream H32) as [_ Hdone].
  apply Hdone. vm_compute. reflexivity.
Defined.
